(** * Users and posts service (src/main.py): data-access layer

    The service keeps two tables, [users] and [posts], behind an ORM session.
    Every handler of [main.py] receives a session, runs one or two queries,
    possibly writes and commits, and returns an object that the framework
    serialises through the handler's response model.

    The embedding below follows the handlers statement by statement.  The
    database is an explicit [Store]: each table is the list of its rows in
    the order they were inserted, and each auto-increment primary key has its
    sequence.  A handler is a computation in the [Db] monad (store passing
    with exceptions).  The schema constraints of the two tables (unique
    [username], unique [email], foreign key [posts.user_id] with cascading
    delete) are part of the write primitives. *)

From Stdlib Require Import ZArith List String Bool Lia Permutation Sorted.
Import ListNotations.

Local Open Scope string_scope.
Local Open Scope Z_scope.

(** ** Tables (classes [User] and [Post]) *)

Module User.
Record t : Type := mk
  { id : Z;
    username : string;
    email : string;
    password : string }.

Definition set_email (u : t) (e : string) : t :=
  mk (id u) (username u) e (password u).
End User.

Module Post.
Record t : Type := mk
  { id : Z;
    title : string;
    content : string;
    user_id : Z }.

Definition set_content (p : t) (c : string) : t :=
  mk (id p) (title p) c (user_id p).
End Post.

(** ** Request and response schemas *)

Module UserCreate.
Record t : Type := mk
  { username : string;
    email : string;
    password : string }.
End UserCreate.

Module PostCreate.
Record t : Type := mk
  { title : string;
    content : string;
    user_id : Z }.
End PostCreate.

Module UserResponse.
Record t : Type := mk
  { id : Z;
    username : string;
    email : string }.
End UserResponse.

Module PostResponse.
Record t : Type := mk
  { id : Z;
    title : string;
    content : string;
    user : UserResponse.t }.
End PostResponse.

(** The body of the two delete handlers' answers, [{"message": ...}]. *)
Record Message : Type := { message : string }.

(** ** The database *)

Record Store : Type := mkStore
  { users : list User.t;
    posts : list Post.t;
    users_id_seq : Z;
    posts_id_seq : Z }.

(** The state after [Base.metadata.create_all] on an empty database. *)
Definition empty_db : Store := mkStore [] [] 1 1.

(** ** Exceptions *)

Inductive Error : Type :=
| HTTPException (status_code : Z) (detail : string)
| IntegrityError (constraint : string)
| InvalidRequestError
| ResponseValidationError.

Definition NotFound (e : Error) : Prop :=
  exists detail, e = HTTPException 404 detail.

Definition Conflict (e : Error) : Prop :=
  exists detail, e = HTTPException 400 detail.

(** ** The session monad *)

Definition Db (A : Type) : Type := Store -> (Error + A) * Store.

Definition ret {A} (a : A) : Db A := fun db => (inr a, db).

Definition raise {A} (e : Error) : Db A := fun db => (inl e, db).

Definition bind {A B} (m : Db A) (k : A -> Db B) : Db B :=
  fun db =>
    match m db with
    | (inl e, db') => (inl e, db')
    | (inr a, db') => k a db'
    end.

Notation "x <- m ;; k" := (bind m (fun x => k))
  (at level 61, m at next level, right associativity).

Fixpoint mapM {A B} (f : A -> Db B) (l : list A) : Db (list B) :=
  match l with
  | [] => ret []
  | a :: l' => b <- f a ;; bs <- mapM f l' ;; ret (b :: bs)
  end.

(** ** Session primitives *)

Definition user_has_id (i : Z) (u : User.t) : bool := User.id u =? i.
Definition post_has_id (i : Z) (p : Post.t) : bool := Post.id p =? i.

(** [db.query(User).filter(c).first()].  The handlers filter on the primary
    key, or only test whether a row was found, so which of several matching
    rows the engine would put first plays no part. *)
Definition first_user (c : User.t -> bool) : Db (option User.t) :=
  fun db => (inr (find c (users db)), db).

(** [db.query(Post).filter(c).first()] *)
Definition first_post (c : Post.t -> bool) : Db (option Post.t) :=
  fun db => (inr (find c (posts db)), db).

(** [db.query(T).all()] sends a SELECT with no ORDER BY clause: the engine
    answers with every row of the table, each once, in an order of its own
    choosing.  [query_all table rows] says that [rows] is such an answer. *)
Definition query_all {A} (table rows : list A) : Prop := Permutation table rows.

(** [db.add(User(...)); db.commit()]: the row takes its [id] from the
    sequence, which advances even when a unique index then refuses the
    row. *)
Definition add_user (username email password : string) : Db User.t :=
  fun db =>
    let row := User.mk (users_id_seq db) username email password in
    let seq' := users_id_seq db + 1 in
    if existsb (fun u => String.eqb (User.username u) username) (users db) then
      (inl (IntegrityError "users_username_key"),
       mkStore (users db) (posts db) seq' (posts_id_seq db))
    else if existsb (fun u => String.eqb (User.email u) email) (users db) then
      (inl (IntegrityError "users_email_key"),
       mkStore (users db) (posts db) seq' (posts_id_seq db))
    else
      (inr row, mkStore (users db ++ [row]) (posts db) seq' (posts_id_seq db)).

(** [db.add(Post(...)); db.commit()], under the foreign key on [user_id]. *)
Definition add_post (title content : string) (user_id : Z) : Db Post.t :=
  fun db =>
    let row := Post.mk (posts_id_seq db) title content user_id in
    let seq' := posts_id_seq db + 1 in
    if existsb (user_has_id user_id) (users db) then
      (inr row, mkStore (users db) (posts db ++ [row]) (users_id_seq db) seq')
    else
      (inl (IntegrityError "posts_user_id_fkey"),
       mkStore (users db) (posts db) (users_id_seq db) seq').

(** [db.refresh(obj)] reads the row again by primary key. *)
Definition refresh_user (u : User.t) : Db User.t :=
  fun db =>
    match find (user_has_id (User.id u)) (users db) with
    | Some row => (inr row, db)
    | None => (inl InvalidRequestError, db)
    end.

Definition refresh_post (p : Post.t) : Db Post.t :=
  fun db =>
    match find (post_has_id (Post.id p)) (posts db) with
    | Some row => (inr row, db)
    | None => (inl InvalidRequestError, db)
    end.

(** [db.delete(db_user); db.commit()]: the relationship [User.posts] has
    [cascade="all, delete"] and the foreign key [ondelete="CASCADE"], so
    the user's posts go with the user. *)
Definition delete_user_row (u : User.t) : Db unit :=
  fun db =>
    (inr tt,
     mkStore (filter (fun r => negb (user_has_id (User.id u) r)) (users db))
             (filter (fun p => negb (Post.user_id p =? User.id u)) (posts db))
             (users_id_seq db) (posts_id_seq db)).

(** [db.delete(db_post); db.commit()] *)
Definition delete_post_row (p : Post.t) : Db unit :=
  fun db =>
    (inr tt,
     mkStore (users db)
             (filter (fun r => negb (post_has_id (Post.id p) r)) (posts db))
             (users_id_seq db) (posts_id_seq db)).

(** What an UPDATE by primary key does to each row of the table. *)
Definition email_update (user_id : Z) (email : string) (r : User.t) : User.t :=
  if user_has_id user_id r then User.set_email r email else r.

Definition content_update (post_id : Z) (content : string) (r : Post.t) : Post.t :=
  if post_has_id post_id r then Post.set_content r content else r.

(** [db_user.email = email; db.commit()]: an UPDATE by primary key, under
    the unique index on [email]. *)
Definition write_user_email (u : User.t) (email : string) : Db unit :=
  fun db =>
    if existsb (fun r => String.eqb (User.email r) email
                         && negb (user_has_id (User.id u) r)) (users db)
    then (inl (IntegrityError "users_email_key"), db)
    else
      (inr tt,
       mkStore (map (email_update (User.id u) email) (users db))
               (posts db) (users_id_seq db) (posts_id_seq db)).

(** [db_post.content = content; db.commit()]: an UPDATE by primary key. *)
Definition write_post_content (p : Post.t) (content : string) : Db unit :=
  fun db =>
    (inr tt,
     mkStore (users db)
             (map (content_update (Post.id p) content) (posts db))
             (users_id_seq db) (posts_id_seq db)).

(** ** Serialisation through the response models *)

(** [UserResponse] with [from_attributes]: it reads [id], [username] and
    [email] of the row. *)
Definition user_response (u : User.t) : UserResponse.t :=
  UserResponse.mk (User.id u) (User.username u) (User.email u).

(** [PostResponse] reads [id], [title], [content] and the relationship
    [Post.user], which the session loads by [user_id]; a post without its
    user does not validate. *)
Definition post_response (p : Post.t) : Db PostResponse.t :=
  owner <- first_user (user_has_id (Post.user_id p)) ;;
  match owner with
  | Some u => ret (PostResponse.mk (Post.id p) (Post.title p) (Post.content p)
                                   (user_response u))
  | None => raise ResponseValidationError
  end.

(** ** The handlers *)

Definition create_user (user : UserCreate.t) : Db UserResponse.t :=
  existing <- first_user (fun u =>
                String.eqb (User.username u) (UserCreate.username user)
                || String.eqb (User.email u) (UserCreate.email user)) ;;
  match existing with
  | Some _ =>
      raise (HTTPException 400 "User with this username or email already exists")
  | None =>
      db_user <- add_user (UserCreate.username user) (UserCreate.email user)
                          (UserCreate.password user) ;;
      db_user <- refresh_user db_user ;;
      ret (user_response db_user)
  end.

(** [get_users] answers with the serialised rows of [db.query(User).all()];
    it does not write. *)
Definition get_users (db : Store) (out : list UserResponse.t) : Prop :=
  exists rows, query_all (users db) rows /\ out = map user_response rows.

Definition get_user (user_id : Z) : Db UserResponse.t :=
  db_user <- first_user (user_has_id user_id) ;;
  match db_user with
  | None => raise (HTTPException 404 "User not found")
  | Some db_user => ret (user_response db_user)
  end.

Definition delete_user (user_id : Z) : Db Message :=
  db_user <- first_user (user_has_id user_id) ;;
  match db_user with
  | None => raise (HTTPException 404 "User not found")
  | Some db_user =>
      _ <- delete_user_row db_user ;;
      ret {| message := "User deleted" |}
  end.

Definition change_user_email (user_id : Z) (email : string) : Db UserResponse.t :=
  db_user <- first_user (user_has_id user_id) ;;
  match db_user with
  | None => raise (HTTPException 404 "User not found")
  | Some db_user =>
      taken <- first_user (fun u => String.eqb (User.email u) email) ;;
      match taken with
      | Some _ => raise (HTTPException 400 "Email is already taken")
      | None =>
          _ <- write_user_email db_user email ;;
          db_user <- refresh_user db_user ;;
          ret (user_response db_user)
      end
  end.

Definition update_post_content (post_id : Z) (content : string) : Db PostResponse.t :=
  db_post <- first_post (post_has_id post_id) ;;
  match db_post with
  | None => raise (HTTPException 404 "Post not found")
  | Some db_post =>
      _ <- write_post_content db_post content ;;
      db_post <- refresh_post db_post ;;
      post_response db_post
  end.

Definition create_post (post : PostCreate.t) : Db PostResponse.t :=
  db_user <- first_user (user_has_id (PostCreate.user_id post)) ;;
  match db_user with
  | None => raise (HTTPException 404 "User not found")
  | Some _ =>
      db_post <- add_post (PostCreate.title post) (PostCreate.content post)
                          (PostCreate.user_id post) ;;
      db_post <- refresh_post db_post ;;
      post_response db_post
  end.

(** [get_posts] answers with the serialised rows of [db.query(Post).all()],
    each with its user loaded; it does not write. *)
Definition get_posts (db : Store) (res : Error + list PostResponse.t) : Prop :=
  exists rows, query_all (posts db) rows /\ res = fst (mapM post_response rows db).

Definition get_post (post_id : Z) : Db PostResponse.t :=
  db_post <- first_post (post_has_id post_id) ;;
  match db_post with
  | None => raise (HTTPException 404 "Post not found")
  | Some db_post => post_response db_post
  end.

Definition delete_post (post_id : Z) : Db Message :=
  db_post <- first_post (post_has_id post_id) ;;
  match db_post with
  | None => raise (HTTPException 404 "Post not found")
  | Some db_post =>
      _ <- delete_post_row db_post ;;
      ret {| message := "Post deleted" |}
  end.

(** ** Reachable states *)

(** The states the service can be in: the empty database, and whatever a
    handler leaves behind, whether it answered or raised. *)
Inductive reachable : Store -> Prop :=
| reachable_empty : reachable empty_db
| reachable_create_user db user :
    reachable db -> reachable (snd (create_user user db))
| reachable_delete_user db user_id :
    reachable db -> reachable (snd (delete_user user_id db))
| reachable_change_user_email db user_id email :
    reachable db -> reachable (snd (change_user_email user_id email db))
| reachable_update_post_content db post_id content :
    reachable db -> reachable (snd (update_post_content post_id content db))
| reachable_create_post db post :
    reachable db -> reachable (snd (create_post post db))
| reachable_delete_post db post_id :
    reachable db -> reachable (snd (delete_post post_id db)).

(** ** Invariant of the reachable states *)

(** Rows were inserted in the order of their identifiers. *)
Definition in_insertion_order (ids : list Z) : Prop := StronglySorted Z.lt ids.

Record wf (db : Store) : Prop := mk_wf
  { wf_user_ids : in_insertion_order (map User.id (users db));
    wf_user_seq : Forall (fun u => User.id u < users_id_seq db) (users db);
    wf_post_ids : in_insertion_order (map Post.id (posts db));
    wf_post_seq : Forall (fun p => Post.id p < posts_id_seq db) (posts db);
    wf_owner :
      Forall (fun p => existsb (user_has_id (Post.user_id p)) (users db) = true)
             (posts db) }.

(** ** Relations between states used in the statements *)

(** Two rows of [users] that agree on everything but the password. *)
Definition same_but_password (u1 u2 : User.t) : Prop :=
  User.id u1 = User.id u2
  /\ User.username u1 = User.username u2
  /\ User.email u1 = User.email u2.

(** Two databases that differ only in stored passwords. *)
Definition same_but_passwords (db1 db2 : Store) : Prop :=
  Forall2 same_but_password (users db1) (users db2)
  /\ posts db1 = posts db2
  /\ users_id_seq db1 = users_id_seq db2
  /\ posts_id_seq db1 = posts_id_seq db2.

Definition option_rel {A} (R : A -> A -> Prop) (o1 o2 : option A) : Prop :=
  match o1, o2 with
  | Some a1, Some a2 => R a1 a2
  | None, None => True
  | _, _ => False
  end.

(** Two computations that, started in databases differing only in
    passwords, raise the same exception or return results related by [R],
    and end in databases differing only in passwords. *)
Definition agree {A} (R : A -> A -> Prop) (m1 m2 : Db A) : Prop :=
  forall db1 db2, same_but_passwords db1 db2 ->
    match m1 db1, m2 db2 with
    | (inl e1, s1), (inl e2, s2) => e1 = e2 /\ same_but_passwords s1 s2
    | (inr a1, s1), (inr a2, s2) => R a1 a2 /\ same_but_passwords s1 s2
    | _, _ => False
    end.

(** What [change_user_email user_id email] may do to a row of [users]. *)
Definition email_changed_only (user_id : Z) (email : string) (u u' : User.t) : Prop :=
  User.id u' = User.id u
  /\ User.username u' = User.username u
  /\ User.password u' = User.password u
  /\ (User.id u = user_id -> User.email u' = email)
  /\ (User.id u <> user_id -> u' = u).

(** What [update_post_content post_id content] may do to a row of [posts]. *)
Definition content_changed_only (post_id : Z) (content : string) (p p' : Post.t) : Prop :=
  Post.id p' = Post.id p
  /\ Post.title p' = Post.title p
  /\ Post.user_id p' = Post.user_id p
  /\ (Post.id p = post_id -> Post.content p' = content)
  /\ (Post.id p <> post_id -> p' = p).

(** A post as [PostResponse] shows it when its user is [u]. *)
Definition post_with_owner (p : Post.t) (u : User.t) : PostResponse.t :=
  PostResponse.mk (Post.id p) (Post.title p) (Post.content p) (user_response u).

(** [r] is the row [p] of [posts] serialised with its user loaded from [db]. *)
Definition owner_loaded (db : Store) (p : Post.t) (r : PostResponse.t) : Prop :=
  exists u, In u (users db) /\ User.id u = Post.user_id p /\ r = post_with_owner p u.

(** ** Steps of the service *)

(** One call of a writing handler, whatever its outcome. *)
Inductive step : Store -> Store -> Prop :=
| step_create_user db user : step db (snd (create_user user db))
| step_delete_user db user_id : step db (snd (delete_user user_id db))
| step_change_user_email db user_id email :
    step db (snd (change_user_email user_id email db))
| step_update_post_content db post_id content :
    step db (snd (update_post_content post_id content db))
| step_create_post db post : step db (snd (create_post post db))
| step_delete_post db post_id : step db (snd (delete_post post_id db)).

(** Any number of calls. *)
Inductive evolves (db : Store) : Store -> Prop :=
| evolves_refl : evolves db db
| evolves_step db1 db2 : evolves db db1 -> step db1 db2 -> evolves db db2.


(** The two unique columns of [users]. *)
Definition unique_credentials (db : Store) : Prop :=
  NoDup (map User.username (users db)) /\ NoDup (map User.email (users db)).

(** The scenario of the service's description, run from the empty database. *)
Definition alice : UserCreate.t := UserCreate.mk "alice" "a@x.com" "pw1".
Definition alice2 : UserCreate.t := UserCreate.mk "alice" "b@x.com" "pw2".
Definition bob : UserCreate.t := UserCreate.mk "bob" "b@x.com" "pw2".
Definition post_T : PostCreate.t := PostCreate.mk "T" "C" 1.

Definition alice_other_password : UserCreate.t :=
  UserCreate.mk "alice" "a@x.com" "secret".

Definition db_alice : Store := snd (create_user alice empty_db).
Definition db_alice_other_password : Store :=
  snd (create_user alice_other_password empty_db).
Definition db_alice_post : Store := snd (create_post post_T db_alice).
Definition db_alice_bob : Store := snd (create_user bob db_alice).

(** Two posts of alice, the first of which was then updated. *)
Definition post_U : PostCreate.t := PostCreate.mk "U" "E" 1.
Definition db_first_post_updated : Store :=
  snd (update_post_content 1 "D" (snd (create_post post_U db_alice_post))).

Example scenario_create_alice :
  fst (create_user alice empty_db) = inr (UserResponse.mk 1 "alice" "a@x.com").
Proof. reflexivity. Qed.

Example scenario_create_alice_again :
  create_user alice2 db_alice
  = (inl (HTTPException 400 "User with this username or email already exists"),
     db_alice).
Proof. reflexivity. Qed.

Example scenario_create_post :
  fst (create_post post_T db_alice)
  = inr (PostResponse.mk 1 "T" "C" (UserResponse.mk 1 "alice" "a@x.com")).
Proof. reflexivity. Qed.

Example scenario_delete_then_get_post :
  fst (delete_user 1 db_alice_post) = inr {| message := "User deleted" |}
  /\ fst (get_post 1 (snd (delete_user 1 db_alice_post)))
     = inl (HTTPException 404 "Post not found").
Proof. split; reflexivity. Qed.

(** ** The monad and the primitives *)

Lemma post_response_store p db : snd (post_response p db) = db.
Proof.
  unfold post_response, bind, first_user, ret, raise.
  destruct (find _ (users db)); reflexivity.
Qed.

Lemma mapM_post_response_store rows db : snd (mapM post_response rows db) = db.
Proof.
  induction rows as [|p rows IH]; simpl; [reflexivity|].
  unfold bind at 1.
  destruct (post_response p db) as [[e|r] db1] eqn:E1;
    pose proof (post_response_store p db) as S1; rewrite E1 in S1; simpl in S1;
    subst db1; [reflexivity|].
  unfold bind, ret.
  destruct (mapM post_response rows db) as [[e|rs] db2]; simpl in IH; subst db2;
    reflexivity.
Qed.

(** ** Lists of rows *)

Lemma find_update {A} (c : A -> bool) (g : A -> A) (l : list A) :
  (forall a, c (g a) = c a) -> find c (map g l) = option_map g (find c l).
Proof.
  intros Hc; induction l as [|a l IH]; simpl; [reflexivity|].
  rewrite Hc; destruct (c a); [reflexivity | exact IH].
Qed.

Lemma existsb_update {A} (c : A -> bool) (g : A -> A) (l : list A) :
  (forall a, c (g a) = c a) -> existsb c (map g l) = existsb c l.
Proof.
  intros Hc; induction l as [|a l IH]; simpl; [reflexivity|].
  now rewrite Hc, IH.
Qed.

Lemma find_existsb {A} (c : A -> bool) (l : list A) :
  existsb c l = match find c l with Some _ => true | None => false end.
Proof.
  induction l as [|a l IH]; simpl; [reflexivity|].
  destruct (c a); [reflexivity | exact IH].
Qed.

Lemma existsb_none {A} (c : A -> bool) (l : list A) :
  (forall a, In a l -> c a = false) -> existsb c l = false.
Proof.
  intros Hc. destruct (existsb c l) eqn:E; [|reflexivity].
  apply existsb_exists in E. destruct E as [a [Hin Ha]].
  now rewrite (Hc a Hin) in Ha.
Qed.

Lemma find_app_fresh {A} (c : A -> bool) (l : list A) (a : A) :
  find c l = None -> c a = true -> find c (l ++ [a]) = Some a.
Proof.
  intros Hn Ha; induction l as [|b l IH]; simpl in *; [now rewrite Ha|].
  destruct (c b); [discriminate | auto].
Qed.

Lemma find_app_old {A} (c : A -> bool) (l : list A) (a b : A) :
  find c l = Some b -> find c (l ++ [a]) = Some b.
Proof.
  induction l as [|x l IH]; simpl; [discriminate|].
  destruct (c x); auto.
Qed.

Lemma insertion_order_app (ids : list Z) (i : Z) :
  in_insertion_order ids -> Forall (fun j => j < i) ids ->
  in_insertion_order (ids ++ [i]).
Proof.
  unfold in_insertion_order.
  induction 1 as [|j ids Hs IH Hj]; intros Hb; simpl.
  - repeat constructor.
  - inversion Hb; subst. constructor; [auto|].
    apply Forall_app; split; [assumption | now repeat constructor].
Qed.

Lemma insertion_order_filter {A} (key : A -> Z) (c : A -> bool) (l : list A) :
  in_insertion_order (map key l) -> in_insertion_order (map key (filter c l)).
Proof.
  unfold in_insertion_order.
  induction l as [|a l IH]; simpl; intros Hs; [constructor|].
  inversion Hs as [|? ? Hs' Ha]; subst.
  destruct (c a); simpl; [|auto].
  constructor; [auto|].
  rewrite Forall_map in *. rewrite Forall_forall in *.
  intros x Hx. apply Ha. apply filter_In in Hx. tauto.
Qed.

Lemma insertion_order_NoDup (ids : list Z) :
  in_insertion_order ids -> NoDup ids.
Proof.
  unfold in_insertion_order.
  induction 1 as [|i ids Hs IH Hi]; constructor; [|assumption].
  intros Hin. rewrite Forall_forall in Hi. specialize (Hi _ Hin). lia.
Qed.

(** In a table with distinct keys, a row is the first one with its key. *)
Lemma find_by_key {A} (key : A -> Z) (l : list A) (a : A) :
  NoDup (map key l) -> In a l -> find (fun r => key r =? key a) l = Some a.
Proof.
  induction l as [|b l IH]; simpl; intros Hnd Hin; [contradiction|].
  inversion Hnd as [|? ? Hb Hnd']; subst.
  destruct Hin as [->|Hin]; [now rewrite Z.eqb_refl|].
  destruct (Z.eqb_spec (key b) (key a)) as [E|_]; [|auto].
  exfalso. apply Hb. rewrite E. now apply in_map.
Qed.

Lemma find_fresh_key {A} (key : A -> Z) (l : list A) (i : Z) :
  Forall (fun r => key r < i) l -> find (fun r => key r =? i) l = None.
Proof.
  induction 1 as [|a l Ha _ IH]; simpl; [reflexivity|].
  destruct (Z.eqb_spec (key a) i); [lia | exact IH].
Qed.

(** ** The invariant holds in every reachable state *)

Ltac unfold_db :=
  unfold create_user, get_user, delete_user, change_user_email,
    update_post_content, create_post, get_post, delete_post,
    post_response, add_user, add_post, refresh_user, refresh_post,
    delete_user_row, delete_post_row, write_user_email, write_post_content,
    first_user, first_post, bind, ret, raise in *.

Ltac case_db :=
  repeat match goal with
    | |- context [match find ?c ?l with _ => _ end] => destruct (find c l) eqn:?
    | |- context [if existsb ?c ?l then _ else _] => destruct (existsb c l) eqn:?
    end.

Lemma wf_empty_db : wf empty_db.
Proof. split; simpl; constructor. Qed.

Lemma wf_users_seq_next db :
  wf db ->
  wf (mkStore (users db) (posts db) (users_id_seq db + 1) (posts_id_seq db)).
Proof.
  intros [H1 H2 H3 H4 H5]; split; simpl; auto.
  eapply Forall_impl; [|exact H2]. simpl; intros; lia.
Qed.

Lemma wf_posts_seq_next db :
  wf db ->
  wf (mkStore (users db) (posts db) (users_id_seq db) (posts_id_seq db + 1)).
Proof.
  intros [H1 H2 H3 H4 H5]; split; simpl; auto.
  eapply Forall_impl; [|exact H4]. simpl; intros; lia.
Qed.

Lemma wf_insert_user db username email password :
  wf db ->
  wf (mkStore (users db ++ [User.mk (users_id_seq db) username email password])
              (posts db) (users_id_seq db + 1) (posts_id_seq db)).
Proof.
  intros [H1 H2 H3 H4 H5]; split; simpl; auto.
  - rewrite map_app; simpl. apply insertion_order_app; [assumption|].
    now rewrite Forall_map.
  - apply Forall_app; split.
    + eapply Forall_impl; [|exact H2]. simpl; intros; lia.
    + repeat constructor; simpl; lia.
  - eapply Forall_impl; [|exact H5]. simpl; intros p Hp.
    rewrite existsb_app, Hp. reflexivity.
Qed.

Lemma wf_insert_post db title content user_id :
  wf db -> existsb (user_has_id user_id) (users db) = true ->
  wf (mkStore (users db)
              (posts db ++ [Post.mk (posts_id_seq db) title content user_id])
              (users_id_seq db) (posts_id_seq db + 1)).
Proof.
  intros [H1 H2 H3 H4 H5] Hu; split; simpl; auto.
  - rewrite map_app; simpl. apply insertion_order_app; [assumption|].
    now rewrite Forall_map.
  - apply Forall_app; split.
    + eapply Forall_impl; [|exact H4]. simpl; intros; lia.
    + repeat constructor; simpl; lia.
  - apply Forall_app; split; [assumption | now repeat constructor].
Qed.

Lemma existsb_other_id (i j : Z) (l : list User.t) :
  i <> j ->
  existsb (user_has_id i) (filter (fun r => negb (user_has_id j r)) l)
  = existsb (user_has_id i) l.
Proof.
  intros Hij; induction l as [|u l IH]; simpl; [reflexivity|].
  destruct (user_has_id j u) eqn:Ej; simpl.
  - rewrite IH. unfold user_has_id in Ej |- * at 2.
    apply Z.eqb_eq in Ej.
    destruct (Z.eqb_spec (User.id u) i); [lia | reflexivity].
  - now rewrite IH.
Qed.

Lemma wf_delete_user db (u : User.t) :
  wf db ->
  wf (mkStore (filter (fun r => negb (user_has_id (User.id u) r)) (users db))
              (filter (fun p => negb (Post.user_id p =? User.id u)) (posts db))
              (users_id_seq db) (posts_id_seq db)).
Proof.
  intros [H1 H2 H3 H4 H5]; split; simpl.
  - now apply insertion_order_filter.
  - rewrite Forall_forall in *. intros x Hx. apply filter_In in Hx.
    apply H2; tauto.
  - now apply insertion_order_filter.
  - rewrite Forall_forall in *. intros x Hx. apply filter_In in Hx.
    apply H4; tauto.
  - rewrite Forall_forall in *. intros p Hp. apply filter_In in Hp.
    destruct Hp as [Hp Hne]. rewrite existsb_other_id; [auto|].
    destruct (Z.eqb_spec (Post.user_id p) (User.id u)); [discriminate | assumption].
Qed.

Lemma wf_delete_post db (p : Post.t) :
  wf db ->
  wf (mkStore (users db)
              (filter (fun r => negb (post_has_id (Post.id p) r)) (posts db))
              (users_id_seq db) (posts_id_seq db)).
Proof.
  intros [H1 H2 H3 H4 H5]; split; simpl; auto.
  - now apply insertion_order_filter.
  - rewrite Forall_forall in *. intros x Hx. apply filter_In in Hx.
    apply H4; tauto.
  - rewrite Forall_forall in *. intros x Hx. apply filter_In in Hx.
    apply H5; tauto.
Qed.

Lemma user_has_id_email_update (i j : Z) (e : string) (r : User.t) :
  user_has_id i (email_update j e r) = user_has_id i r.
Proof. unfold email_update. destruct (user_has_id j r); reflexivity. Qed.

Lemma post_has_id_content_update (i j : Z) (c : string) (r : Post.t) :
  post_has_id i (content_update j c r) = post_has_id i r.
Proof. unfold content_update. destruct (post_has_id j r); reflexivity. Qed.

Lemma map_id_write_email (i : Z) (e : string) (l : list User.t) :
  map User.id (map (email_update i e) l)
  = map User.id l.
Proof.
  rewrite map_map. apply map_ext. intros r. unfold email_update.
  destruct (user_has_id i r); reflexivity.
Qed.

Lemma map_id_write_content (i : Z) (c : string) (l : list Post.t) :
  map Post.id (map (content_update i c) l)
  = map Post.id l.
Proof.
  rewrite map_map. apply map_ext. intros r. unfold content_update.
  destruct (post_has_id i r); reflexivity.
Qed.

Lemma wf_write_email db (i : Z) (e : string) :
  wf db ->
  wf (mkStore (map (email_update i e) (users db))
              (posts db) (users_id_seq db) (posts_id_seq db)).
Proof.
  intros [H1 H2 H3 H4 H5]; split; simpl; auto.
  - now rewrite map_id_write_email.
  - rewrite Forall_map. eapply Forall_impl; [|exact H2].
    intros r Hr; simpl in *. unfold email_update; destruct (user_has_id i r); exact Hr.
  - eapply Forall_impl; [|exact H5]. intros p Hp; simpl in *.
    rewrite existsb_update; [exact Hp|].
    intros r; unfold email_update; destruct (user_has_id i r); reflexivity.
Qed.

Lemma wf_write_content db (i : Z) (c : string) :
  wf db ->
  wf (mkStore (users db)
              (map (content_update i c) (posts db))
              (users_id_seq db) (posts_id_seq db)).
Proof.
  intros [H1 H2 H3 H4 H5]; split; simpl; auto.
  - now rewrite map_id_write_content.
  - rewrite Forall_map. eapply Forall_impl; [|exact H4].
    intros r Hr; simpl in *. unfold content_update; destruct (post_has_id i r); exact Hr.
  - rewrite Forall_map. eapply Forall_impl; [|exact H5].
    intros r Hr; simpl in *. unfold content_update; destruct (post_has_id i r); exact Hr.
Qed.

Create HintDb wf_db.

#[local] Hint Resolve wf_users_seq_next wf_posts_seq_next wf_insert_user
  wf_insert_post wf_delete_user wf_delete_post wf_write_email wf_write_content
  : wf_db.

Lemma reachable_wf db : reachable db -> wf db.
Proof.
  induction 1 as [|db user _ IH|db i _ IH|db i e _ IH|db i c _ IH|db post _ IH
                 |db i _ IH].
  - exact wf_empty_db.
  - unfold_db. case_db; simpl; auto with wf_db.
  - unfold_db. case_db; simpl; auto with wf_db.
  - unfold_db. case_db; simpl; auto with wf_db.
  - unfold_db. case_db; simpl; auto with wf_db.
  - unfold_db. case_db; simpl; auto with wf_db.
  - unfold_db. case_db; simpl; auto with wf_db.
Qed.

(** ** create_user *)

Lemma create_user_taken db user u :
  In u (users db) ->
  User.username u = UserCreate.username user
  \/ User.email u = UserCreate.email user ->
  create_user user db
  = (inl (HTTPException 400 "User with this username or email already exists"), db).
Proof.
  intros Hin Hmatch. unfold_db.
  destruct (find _ (users db)) eqn:Hf; [reflexivity|].
  exfalso. apply (find_none _ _ Hf) in Hin.
  apply orb_false_elim in Hin. destruct Hin as [Hu He].
  rewrite String.eqb_neq in Hu, He. tauto.
Qed.

Lemma create_user_inserts db user :
  wf db ->
  (forall u, In u (users db) ->
     User.username u <> UserCreate.username user
     /\ User.email u <> UserCreate.email user) ->
  let row := User.mk (users_id_seq db) (UserCreate.username user)
                     (UserCreate.email user) (UserCreate.password user) in
  create_user user db
  = (inr (user_response row),
     mkStore (users db ++ [row]) (posts db) (users_id_seq db + 1) (posts_id_seq db)).
Proof.
  intros Hwf Hfree row. unfold_db.
  destruct (find _ (users db)) as [u|] eqn:Hf.
  { apply find_some in Hf. destruct Hf as [Hin Hm].
    destruct (Hfree u Hin) as [Hu He].
    rewrite <- String.eqb_neq in Hu, He. now rewrite Hu, He in Hm. }
  assert (Hn : existsb (fun u => String.eqb (User.username u) (UserCreate.username user))
                 (users db) = false).
  { apply existsb_none. intros u Hin. apply String.eqb_neq.
    now destruct (Hfree u Hin). }
  assert (He : existsb (fun u => String.eqb (User.email u) (UserCreate.email user))
                 (users db) = false).
  { apply existsb_none. intros u Hin. apply String.eqb_neq.
    now destruct (Hfree u Hin). }
  rewrite Hn, He. simpl. fold row.
  rewrite (find_app_fresh (user_has_id (users_id_seq db)) (users db) row).
  - reflexivity.
  - apply (find_fresh_key User.id). apply Hwf.
  - apply Z.eqb_refl.
Qed.

Lemma get_user_found db (u : User.t) :
  wf db -> In u (users db) ->
  get_user (User.id u) db = (inr (user_response u), db).
Proof.
  intros Hwf Hin. unfold_db. unfold user_has_id.
  rewrite (find_by_key User.id); [reflexivity | | assumption].
  apply insertion_order_NoDup, Hwf.
Qed.

(** ** create_post, get_post *)

Lemma create_post_no_user db post :
  (forall u, In u (users db) -> User.id u <> PostCreate.user_id post) ->
  create_post post db = (inl (HTTPException 404 "User not found"), db).
Proof.
  intros Hno. unfold_db.
  destruct (find _ (users db)) as [u|] eqn:Hf; [|reflexivity].
  apply find_some in Hf. destruct Hf as [Hin Hid].
  apply Z.eqb_eq in Hid. now apply Hno in Hin.
Qed.

Lemma create_post_inserts db post u :
  wf db -> In u (users db) -> User.id u = PostCreate.user_id post ->
  let row := Post.mk (posts_id_seq db) (PostCreate.title post)
                     (PostCreate.content post) (PostCreate.user_id post) in
  create_post post db
  = (inr (post_with_owner row u),
     mkStore (users db) (posts db ++ [row]) (users_id_seq db) (posts_id_seq db + 1)).
Proof.
  intros Hwf Hin Hid row.
  assert (Hu : find (user_has_id (PostCreate.user_id post)) (users db) = Some u).
  { rewrite <- Hid. apply (find_by_key User.id); [|assumption].
    apply insertion_order_NoDup, Hwf. }
  unfold_db. rewrite Hu, find_existsb, Hu. simpl. fold row.
  rewrite (find_app_fresh (post_has_id (posts_id_seq db)) (posts db) row).
  - simpl. rewrite Hu. reflexivity.
  - apply (find_fresh_key Post.id). apply Hwf.
  - apply Z.eqb_refl.
Qed.

Lemma get_post_found db (p : Post.t) (u : User.t) :
  wf db -> In p (posts db) -> In u (users db) -> User.id u = Post.user_id p ->
  get_post (Post.id p) db = (inr (post_with_owner p u), db).
Proof.
  intros Hwf Hp Hu Hid. unfold_db. unfold post_has_id, user_has_id.
  rewrite (find_by_key Post.id); [| apply insertion_order_NoDup, Hwf | assumption].
  rewrite <- Hid.
  rewrite (find_by_key User.id); [| apply insertion_order_NoDup, Hwf | assumption].
  reflexivity.
Qed.

(** In a reachable state every post has its user among the rows of [users]. *)
Lemma wf_owner_row db (p : Post.t) :
  wf db -> In p (posts db) ->
  exists u, In u (users db) /\ User.id u = Post.user_id p.
Proof.
  intros Hwf Hp. destruct Hwf as [_ _ _ _ Ho].
  rewrite Forall_forall in Ho. apply Ho in Hp.
  apply existsb_exists in Hp. destruct Hp as [u [Hin Hid]].
  exists u. split; [assumption | now apply Z.eqb_eq].
Qed.

(** ** Creation: conflicts, insertion, round trip *)

(** C3. When the table already holds a user with the given username and
    another email, or with the given email and another username,
    [create_user] raises the 400 conflict and the database is left as it
    was: no row is inserted. *)
Theorem create_user_duplicate_conflict db user u :
  In u (users db) ->
  (User.username u = UserCreate.username user
   /\ User.email u <> UserCreate.email user)
  \/ (User.email u = UserCreate.email user
      /\ User.username u <> UserCreate.username user) ->
  exists e, Conflict e /\ create_user user db = (inl e, db).
Proof.
  intros Hin Hdup.
  exists (HTTPException 400 "User with this username or email already exists").
  split; [eexists; reflexivity|].
  apply (create_user_taken db user u Hin). tauto.
Qed.

Lemma create_user_duplicate_conflict_witness :
  In (User.mk 1 "alice" "a@x.com" "pw1") (users db_alice)
  /\ exists e, Conflict e /\ create_user alice2 db_alice = (inl e, db_alice).
Proof.
  split; [left; reflexivity|].
  apply (create_user_duplicate_conflict db_alice alice2
           (User.mk 1 "alice" "a@x.com" "pw1")).
  - left; reflexivity.
  - left; split; [reflexivity | discriminate].
Defined.

(** C4. In a reachable state, [create_user] on a username and an email that
    no row has succeeds, the answer carries the identifier taken from the
    sequence and the given username and email, and [get_user] on that
    identifier then answers the same object.  Likewise the answer of a
    successful [create_post] carries the given title and content and the
    user of the given [user_id], and [get_post] on its identifier answers the
    same object.  Non-emptiness of the fields is not needed.  The answers
    are [UserResponse.t] and [PostResponse.t], which have no password. *)
Theorem create_then_fetch db :
  reachable db ->
  (forall user,
     (forall u, In u (users db) ->
        User.username u <> UserCreate.username user
        /\ User.email u <> UserCreate.email user) ->
     exists r db',
       create_user user db = (inr r, db')
       /\ UserResponse.id r = users_id_seq db
       /\ UserResponse.username r = UserCreate.username user
       /\ UserResponse.email r = UserCreate.email user
       /\ get_user (UserResponse.id r) db' = (inr r, db'))
  /\ (forall post r db',
        create_post post db = (inr r, db') ->
        PostResponse.id r = posts_id_seq db
        /\ PostResponse.title r = PostCreate.title post
        /\ PostResponse.content r = PostCreate.content post
        /\ UserResponse.id (PostResponse.user r) = PostCreate.user_id post
        /\ get_post (PostResponse.id r) db' = (inr r, db')).
Proof.
  intros Hr. pose proof (reachable_wf db Hr) as Hwf. split.
  - intros user Hfree.
    pose proof (create_user_inserts db user Hwf Hfree) as Hc. simpl in Hc.
    eexists; eexists. split; [exact Hc|]. repeat split.
    pose proof (reachable_create_user db user Hr) as Hr'.
    rewrite Hc in Hr'. simpl in Hr'. apply reachable_wf in Hr'.
    apply (get_user_found _ (User.mk (users_id_seq db) (UserCreate.username user)
                               (UserCreate.email user) (UserCreate.password user)) Hr').
    simpl. apply in_or_app. right; left; reflexivity.
  - intros post r db' Hc.
    destruct (find (user_has_id (PostCreate.user_id post)) (users db)) as [u|] eqn:Hf.
    + apply find_some in Hf. destruct Hf as [Hin Hid]. apply Z.eqb_eq in Hid.
      pose proof (reachable_create_post db post Hr) as Hr'.
      rewrite (create_post_inserts db post u Hwf Hin Hid) in Hc, Hr'.
      simpl in Hr'. apply reachable_wf in Hr'.
      injection Hc as <- <-. simpl. repeat split; [assumption|].
      apply (get_post_found _ (Post.mk (posts_id_seq db) (PostCreate.title post)
                                 (PostCreate.content post) (PostCreate.user_id post))
               u Hr'); simpl; [|assumption|assumption].
      apply in_or_app. right; left; reflexivity.
    + rewrite create_post_no_user in Hc; [discriminate|].
      intros u Hin Hid. apply (find_none _ _ Hf) in Hin.
      unfold user_has_id in Hin. apply Z.eqb_neq in Hin. contradiction.
Qed.

Lemma create_then_fetch_witness :
  reachable db_alice
  /\ (exists r db',
        create_user bob db_alice = (inr r, db')
        /\ UserResponse.id r = 2
        /\ UserResponse.username r = "bob"
        /\ UserResponse.email r = "b@x.com"
        /\ get_user (UserResponse.id r) db' = (inr r, db'))
  /\ (let r := PostResponse.mk 1 "T" "C" (UserResponse.mk 1 "alice" "a@x.com") in
      PostResponse.id r = 1
      /\ PostResponse.title r = "T"
      /\ PostResponse.content r = "C"
      /\ UserResponse.id (PostResponse.user r) = 1
      /\ get_post (PostResponse.id r) db_alice_post = (inr r, db_alice_post)).
Proof.
  assert (Hr : reachable db_alice) by (apply reachable_create_user, reachable_empty).
  destruct (create_then_fetch db_alice Hr) as [Hu Hp].
  split; [exact Hr|]. split.
  - apply (Hu bob). intros u [<-|[]]. simpl. split; discriminate.
  - apply (Hp post_T). reflexivity.
Defined.

(** C10. [create_user] validates nothing about emptiness: in a reachable
    state, whenever no row has the given username or the given email, the
    row is appended to [users] with the next identifier and returned, also
    when username, email or password is the empty string. *)
Theorem create_user_no_emptiness_check db user :
  reachable db ->
  (forall u, In u (users db) ->
     User.username u <> UserCreate.username user
     /\ User.email u <> UserCreate.email user) ->
  exists r db',
    create_user user db = (inr r, db')
    /\ users db' = (users db ++ [User.mk (UserResponse.id r) (UserCreate.username user)
                                   (UserCreate.email user) (UserCreate.password user)])%list
    /\ posts db' = posts db
    /\ r = UserResponse.mk (users_id_seq db) (UserCreate.username user)
                           (UserCreate.email user).
Proof.
  intros Hr Hfree.
  pose proof (create_user_inserts db user (reachable_wf db Hr) Hfree) as Hc.
  simpl in Hc. eexists; eexists. split; [exact Hc|]. repeat split.
Qed.

Lemma create_user_no_emptiness_check_witness :
  reachable empty_db
  /\ exists r db',
       create_user (UserCreate.mk "" "" "") empty_db = (inr r, db')
       /\ users db' = (users empty_db ++ [User.mk (UserResponse.id r) "" "" ""])%list
       /\ posts db' = posts empty_db
       /\ r = UserResponse.mk 1 "" "".
Proof.
  split; [exact reachable_empty|].
  apply (create_user_no_emptiness_check empty_db (UserCreate.mk "" "" "")
           reachable_empty).
  intros u [].
Defined.

(** C5. When no row of [users] has the given [user_id], [create_post]
    raises the 404 and leaves the database as it was; when, in a reachable
    state, a user [u] has it, [create_post] appends the post and answers
    with it, [u] loaded as its user. *)
Theorem create_post_checks_user db post :
  ((forall u, In u (users db) -> User.id u <> PostCreate.user_id post) ->
   exists e, NotFound e /\ create_post post db = (inl e, db))
  /\ (reachable db ->
      forall u, In u (users db) -> User.id u = PostCreate.user_id post ->
      exists r db',
        create_post post db = (inr r, db')
        /\ PostResponse.title r = PostCreate.title post
        /\ PostResponse.content r = PostCreate.content post
        /\ PostResponse.user r = user_response u
        /\ users db' = users db
        /\ posts db' = (posts db ++ [Post.mk (PostResponse.id r) (PostCreate.title post)
                                       (PostCreate.content post)
                                       (PostCreate.user_id post)])%list).
Proof.
  split.
  - intros Hno. exists (HTTPException 404 "User not found").
    split; [eexists; reflexivity | now apply create_post_no_user].
  - intros Hr u Hin Hid.
    pose proof (create_post_inserts db post u (reachable_wf db Hr) Hin Hid) as Hc.
    simpl in Hc. eexists; eexists. split; [exact Hc|]. repeat split.
Qed.

Lemma create_post_checks_user_witness :
  (exists e, NotFound e /\ create_post post_T empty_db = (inl e, empty_db))
  /\ (exists r db',
        create_post post_T db_alice = (inr r, db')
        /\ PostResponse.title r = "T"
        /\ PostResponse.content r = "C"
        /\ PostResponse.user r = UserResponse.mk 1 "alice" "a@x.com"
        /\ users db' = users db_alice
        /\ posts db' = (posts db_alice ++ [Post.mk (PostResponse.id r) "T" "C" 1])%list).
Proof.
  split.
  - apply (proj1 (create_post_checks_user empty_db post_T)). intros u [].
  - apply (proj2 (create_post_checks_user db_alice post_T)
             (reachable_create_user _ _ reachable_empty)
             (User.mk 1 "alice" "a@x.com" "pw1")).
    + left; reflexivity.
    + reflexivity.
Defined.

(** ** Reading whole tables *)

Lemma Forall2_In_r {A B} (R : A -> B -> Prop) l1 l2 b :
  Forall2 R l1 l2 -> In b l2 -> exists a, In a l1 /\ R a b.
Proof.
  induction 1 as [|a b' l1 l2 Hab _ IH]; simpl; [contradiction|].
  intros [->|Hin].
  - exists a; auto.
  - destruct (IH Hin) as [a' [Ha' Hr]]. exists a'; auto.
Qed.

Lemma post_response_loaded db p u :
  find (user_has_id (Post.user_id p)) (users db) = Some u ->
  post_response p db = (inr (post_with_owner p u), db).
Proof. intros Hf. unfold_db. now rewrite Hf. Qed.

Lemma mapM_post_response_loaded db rows :
  wf db -> (forall p, In p rows -> In p (posts db)) ->
  exists out,
    mapM post_response rows db = (inr out, db)
    /\ Forall2 (owner_loaded db) rows out
    /\ map PostResponse.id out = map Post.id rows.
Proof.
  intros Hwf. induction rows as [|p rows IH]; intros Hsub.
  - exists []. repeat split; constructor.
  - destruct IH as [out [Hm [Hl Hids]]]; [intros; apply Hsub; now right|].
    destruct (wf_owner_row db p Hwf) as [u [Hu Hid]]; [apply Hsub; now left|].
    exists (post_with_owner p u :: out). simpl.
    unfold bind at 1. rewrite (post_response_loaded db p u).
    + unfold bind at 1. rewrite Hm. unfold ret. repeat split.
      * constructor; [|assumption]. exists u; auto.
      * simpl. now rewrite Hids.
    + rewrite <- Hid. apply (find_by_key User.id); [|assumption].
      apply insertion_order_NoDup, Hwf.
Qed.

Lemma get_posts_loaded db res :
  wf db -> get_posts db res ->
  exists rows out,
    query_all (posts db) rows /\ res = inr out
    /\ Forall2 (owner_loaded db) rows out
    /\ map PostResponse.id out = map Post.id rows.
Proof.
  intros Hwf [rows [Hq ->]].
  destruct (mapM_post_response_loaded db rows Hwf) as [out [Hm [Hl Hids]]].
  { intros p Hp. apply Permutation_sym in Hq. exact (Permutation_in p Hq Hp). }
  exists rows, out. rewrite Hm. auto.
Qed.

(** ** delete_user *)

Lemma delete_user_deleted db user_id m db' :
  delete_user user_id db = (inr m, db') ->
  users db' = filter (fun r => negb (user_has_id user_id r)) (users db)
  /\ posts db' = filter (fun p => negb (Post.user_id p =? user_id)) (posts db).
Proof.
  unfold_db.
  destruct (find _ (users db)) as [u|] eqn:Hf; [|discriminate].
  apply find_some in Hf. destruct Hf as [_ Hid]. apply Z.eqb_eq in Hid.
  rewrite Hid. intros H; injection H as _ <-. split; reflexivity.
Qed.

(** C1. In every reachable state each post's [user_id] is the identifier
    of a row of [users]; and when [delete_user user_id] succeeds, no post
    with that [user_id] is left in [posts], so that every answer of
    [get_posts] afterwards is a list in which no post has this user. *)
Theorem no_orphaned_posts db :
  reachable db ->
  (forall p, In p (posts db) ->
     exists u, In u (users db) /\ User.id u = Post.user_id p)
  /\ (forall user_id m db',
        delete_user user_id db = (inr m, db') ->
        (forall p, In p (posts db') -> Post.user_id p <> user_id)
        /\ (forall res, get_posts db' res ->
              exists out,
                res = inr out
                /\ forall r, In r out ->
                     UserResponse.id (PostResponse.user r) <> user_id)).
Proof.
  intros Hr. split.
  - intros p Hp. now apply wf_owner_row; [apply reachable_wf|].
  - intros user_id m db' Hd.
    assert (Hgone : forall p, In p (posts db') -> Post.user_id p <> user_id).
    { destruct (delete_user_deleted db user_id m db' Hd) as [_ Hp].
      intros p Hin. rewrite Hp in Hin. apply filter_In in Hin.
      destruct Hin as [_ Hne].
      destruct (Z.eqb_spec (Post.user_id p) user_id); [discriminate | assumption]. }
    split; [exact Hgone|].
    intros res Hg.
    assert (Hwf' : wf db').
    { pose proof (reachable_delete_user db user_id Hr) as Hr'.
      rewrite Hd in Hr'. now apply reachable_wf. }
    destruct (get_posts_loaded db' res Hwf' Hg) as [rows [out [Hq [-> [Hl _]]]]].
    exists out. split; [reflexivity|].
    intros r Hin. destruct (Forall2_In_r _ _ _ _ Hl Hin) as [p [Hp [u [_ [Hid ->]]]]].
    simpl. rewrite Hid. apply Hgone.
    apply Permutation_sym in Hq. exact (Permutation_in p Hq Hp).
Qed.

Lemma no_orphaned_posts_witness :
  reachable db_alice_post
  /\ (forall p, In p (posts db_alice_post) ->
        exists u, In u (users db_alice_post) /\ User.id u = Post.user_id p)
  /\ (forall p, In p (posts (snd (delete_user 1 db_alice_post))) ->
        Post.user_id p <> 1)
  /\ (forall res, get_posts (snd (delete_user 1 db_alice_post)) res ->
        exists out,
          res = inr out
          /\ forall r, In r out -> UserResponse.id (PostResponse.user r) <> 1).
Proof.
  assert (Hr : reachable db_alice_post).
  { apply reachable_create_post, reachable_create_user, reachable_empty. }
  destruct (no_orphaned_posts db_alice_post Hr) as [Ho Hd].
  split; [exact Hr|]. split; [exact Ho|].
  apply (Hd 1 {| message := "User deleted" |} (snd (delete_user 1 db_alice_post))).
  reflexivity.
Defined.

(** ** change_user_email *)

Lemma change_user_email_not_found db user_id email :
  (forall u, In u (users db) -> User.id u <> user_id) ->
  change_user_email user_id email db
  = (inl (HTTPException 404 "User not found"), db).
Proof.
  intros Hno. unfold_db.
  destruct (find _ (users db)) as [u|] eqn:Hf; [|reflexivity].
  apply find_some in Hf. destruct Hf as [Hin Hid].
  apply Z.eqb_eq in Hid. now apply Hno in Hin.
Qed.

Lemma change_user_email_taken db user_id email u v :
  In u (users db) -> User.id u = user_id ->
  In v (users db) -> User.email v = email ->
  change_user_email user_id email db
  = (inl (HTTPException 400 "Email is already taken"), db).
Proof.
  intros Hu Hid Hv Hev. unfold_db.
  destruct (find (user_has_id user_id) (users db)) eqn:Hf.
  - destruct (find (fun u0 => String.eqb (User.email u0) email) (users db)) eqn:Hg;
      [reflexivity|].
    apply (find_none _ _ Hg) in Hv. apply String.eqb_neq in Hv. contradiction.
  - apply (find_none _ _ Hf) in Hu. apply Z.eqb_neq in Hu. contradiction.
Qed.

Lemma change_user_email_free db email u :
  wf db -> In u (users db) ->
  (forall v, In v (users db) -> User.email v <> email) ->
  change_user_email (User.id u) email db
  = (inr (UserResponse.mk (User.id u) (User.username u) email),
     mkStore (map (email_update (User.id u) email) (users db)) (posts db)
             (users_id_seq db) (posts_id_seq db)).
Proof.
  intros Hwf Hu Hfree.
  assert (Hf : find (user_has_id (User.id u)) (users db) = Some u).
  { apply (find_by_key User.id); [|assumption]. apply insertion_order_NoDup, Hwf. }
  unfold_db. rewrite Hf.
  destruct (find (fun u0 => String.eqb (User.email u0) email) (users db)) as [v|] eqn:Hg.
  { apply find_some in Hg. destruct Hg as [Hv He]. apply String.eqb_eq in He.
    now apply Hfree in Hv. }
  rewrite existsb_none.
  - simpl. rewrite find_update, Hf.
    + simpl. unfold email_update, user_has_id. rewrite Z.eqb_refl. reflexivity.
    + intros r. apply user_has_id_email_update.
  - intros v Hv. apply Hfree in Hv. apply String.eqb_neq in Hv. now rewrite Hv.
Qed.

(** A user cannot be given the email it already has: the handler looks for
    any row with the email, the user's own row included. *)
Lemma change_user_email_unchanged_refused db u :
  In u (users db) ->
  change_user_email (User.id u) (User.email u) db
  = (inl (HTTPException 400 "Email is already taken"), db).
Proof.
  intros Hu. now apply (change_user_email_taken db _ _ u u).
Qed.

(** C2. At the state holding only alice (identifier 1, email [a@x.com]),
    no other user has the email [a@x.com]; yet changing the email of user 1
    to [a@x.com] raises the 400 conflict.  An absent identifier raises the
    404, and an email that no row has is accepted. *)
Theorem change_user_email_own_email_conflict :
  users db_alice = [User.mk 1 "alice" "a@x.com" "pw1"]
  /\ (forall v, In v (users db_alice) -> User.email v = "a@x.com" -> User.id v = 1)
  /\ change_user_email 1 "a@x.com" db_alice
     = (inl (HTTPException 400 "Email is already taken"), db_alice)
  /\ change_user_email 2 "c@x.com" db_alice
     = (inl (HTTPException 404 "User not found"), db_alice)
  /\ fst (change_user_email 1 "c@x.com" db_alice)
     = inr (UserResponse.mk 1 "alice" "c@x.com").
Proof.
  split; [reflexivity|]. split; [|repeat split].
  intros v [<-|[]] _. reflexivity.
Qed.

(** ** Frame of the modifying handlers *)

Lemma Forall2_update {A} (R : A -> A -> Prop) (g : A -> A) (l : list A) :
  (forall a, R a (g a)) -> Forall2 R l (map g l).
Proof. intros Hg; induction l; simpl; constructor; auto. Qed.

Lemma email_update_frame user_id email u :
  email_changed_only user_id email u (email_update user_id email u).
Proof.
  unfold email_changed_only, email_update, user_has_id.
  destruct (Z.eqb_spec (User.id u) user_id); simpl; repeat split; auto;
    intros; contradiction.
Qed.

Lemma content_update_frame post_id content p :
  content_changed_only post_id content p (content_update post_id content p).
Proof.
  unfold content_changed_only, content_update, post_has_id.
  destruct (Z.eqb_spec (Post.id p) post_id); simpl; repeat split; auto;
    intros; contradiction.
Qed.

Lemma change_user_email_writes db user_id email r db' :
  change_user_email user_id email db = (inr r, db') ->
  db' = mkStore (map (email_update user_id email) (users db)) (posts db)
                (users_id_seq db) (posts_id_seq db).
Proof.
  unfold_db.
  destruct (find (user_has_id user_id) (users db)) as [u|] eqn:Hf; [|discriminate].
  apply find_some in Hf. destruct Hf as [_ Hid]. apply Z.eqb_eq in Hid.
  rewrite Hid.
  destruct (find (fun u0 => String.eqb (User.email u0) email) (users db));
    [discriminate|].
  destruct (existsb _ (users db)); [discriminate|].
  simpl. destruct (find _ (map _ (users db))); [|discriminate].
  intros H; injection H as _ <-. reflexivity.
Qed.

Lemma update_post_content_writes db post_id content p :
  find (post_has_id post_id) (posts db) = Some p ->
  update_post_content post_id content db
  = post_response (Post.set_content p content)
      (mkStore (users db) (map (content_update post_id content) (posts db))
               (users_id_seq db) (posts_id_seq db)).
Proof.
  intros Hf. unfold update_post_content, first_post, write_post_content,
    refresh_post, bind. rewrite Hf.
  pose proof (find_some _ _ Hf) as [_ Hid]. apply Z.eqb_eq in Hid.
  rewrite Hid. cbn [posts]. rewrite find_update, Hf.
  - cbn [option_map]. unfold content_update at 1, post_has_id at 1.
    rewrite Hid, Z.eqb_refl. reflexivity.
  - intros r. apply post_has_id_content_update.
Qed.

Lemma update_post_content_not_found db post_id content :
  find (post_has_id post_id) (posts db) = None ->
  update_post_content post_id content db
  = (inl (HTTPException 404 "Post not found"), db).
Proof. intros Hf. unfold_db. now rewrite Hf. Qed.

(** C9. A successful [change_user_email] leaves [posts] and both sequences
    as they were, and row by row keeps identifier, username and password,
    rewrites the email of the rows with the given identifier and leaves
    every other row untouched; a successful [update_post_content] leaves
    [users] and both sequences as they were, and row by row keeps
    identifier, title and [user_id], rewrites the content of the rows with
    the given identifier and leaves every other row untouched. *)
Theorem modifying_handlers_frame db :
  (forall user_id email r db',
     change_user_email user_id email db = (inr r, db') ->
     Forall2 (email_changed_only user_id email) (users db) (users db')
     /\ posts db' = posts db
     /\ users_id_seq db' = users_id_seq db
     /\ posts_id_seq db' = posts_id_seq db)
  /\ (forall post_id content r db',
        update_post_content post_id content db = (inr r, db') ->
        Forall2 (content_changed_only post_id content) (posts db) (posts db')
        /\ users db' = users db
        /\ users_id_seq db' = users_id_seq db
        /\ posts_id_seq db' = posts_id_seq db).
Proof.
  split.
  - intros user_id email r db' H.
    rewrite (change_user_email_writes _ _ _ _ _ H). simpl. repeat split.
    apply Forall2_update, email_update_frame.
  - intros post_id content r db' H.
    destruct (find (post_has_id post_id) (posts db)) as [p|] eqn:Hf.
    + rewrite (update_post_content_writes _ _ _ _ Hf) in H.
      pose proof (post_response_store (Post.set_content p content)
                    (mkStore (users db) (map (content_update post_id content) (posts db))
                             (users_id_seq db) (posts_id_seq db))) as Hs.
      rewrite H in Hs. simpl in Hs. subst db'. simpl. repeat split.
      apply Forall2_update, content_update_frame.
    + rewrite (update_post_content_not_found _ _ _ Hf) in H. discriminate.
Qed.

Lemma modifying_handlers_frame_witness :
  (Forall2 (email_changed_only 1 "c@x.com") (users db_alice_bob)
           (users (snd (change_user_email 1 "c@x.com" db_alice_bob)))
   /\ posts (snd (change_user_email 1 "c@x.com" db_alice_bob)) = posts db_alice_bob)
  /\ (Forall2 (content_changed_only 1 "D") (posts db_alice_post)
              (posts (snd (update_post_content 1 "D" db_alice_post)))
      /\ users (snd (update_post_content 1 "D" db_alice_post)) = users db_alice_post).
Proof.
  split.
  - destruct (proj1 (modifying_handlers_frame db_alice_bob) 1 "c@x.com"
                (UserResponse.mk 1 "alice" "c@x.com")
                (snd (change_user_email 1 "c@x.com" db_alice_bob)) eq_refl)
      as [H1 [H2 _]].
    split; assumption.
  - destruct (proj2 (modifying_handlers_frame db_alice_post) 1 "D"
                (PostResponse.mk 1 "T" "D" (UserResponse.mk 1 "alice" "a@x.com"))
                (snd (update_post_content 1 "D" db_alice_post)) eq_refl)
      as [H1 [H2 _]].
    split; assumption.
Defined.

(** ** update_post_content twice *)

Lemma content_update_twice post_id content (l : list Post.t) :
  map (content_update post_id content) (map (content_update post_id content) l)
  = map (content_update post_id content) l.
Proof.
  rewrite map_map. apply map_ext. intros r.
  unfold content_update at 2.
  destruct (post_has_id post_id r) eqn:E.
  - unfold content_update. change (post_has_id post_id (Post.set_content r content))
      with (post_has_id post_id r). now rewrite E.
  - unfold content_update. now rewrite E.
Qed.

Lemma find_post_updated db post_id content p :
  find (post_has_id post_id) (posts db) = Some p ->
  find (post_has_id post_id) (map (content_update post_id content) (posts db))
  = Some (Post.set_content p content).
Proof.
  intros Hf. rewrite find_update, Hf by (intros; apply post_has_id_content_update).
  simpl. unfold content_update.
  pose proof (find_some _ _ Hf) as [_ Hid]. now rewrite Hid.
Qed.

(** C7. For a post that exists, running [update_post_content] a second
    time with the same content gives the same answer and the same database
    as running it once; after it, the rows with this identifier have the
    given content, and in a reachable state the answer is the post with the
    given content. *)
Theorem update_post_content_idempotent db post_id content :
  (exists p, In p (posts db) /\ Post.id p = post_id) ->
  let once := update_post_content post_id content db in
  update_post_content post_id content (snd once) = once
  /\ (forall p, In p (posts (snd once)) -> Post.id p = post_id ->
        Post.content p = content)
  /\ (reachable db ->
      exists r, fst once = inr r /\ PostResponse.id r = post_id
                /\ PostResponse.content r = content).
Proof.
  intros [p [Hp Hid]].
  destruct (find (post_has_id post_id) (posts db)) as [p0|] eqn:Hf.
  2:{ apply (find_none _ _ Hf) in Hp. apply Z.eqb_neq in Hp. contradiction. }
  intros once. subst once.
  rewrite (update_post_content_writes _ _ _ _ Hf).
  set (db1 := mkStore (users db) (map (content_update post_id content) (posts db))
                      (users_id_seq db) (posts_id_seq db)).
  rewrite (post_response_store _ db1).
  split; [|split].
  - rewrite (update_post_content_writes db1 post_id content
               (Post.set_content p0 content)).
    + unfold db1. cbn [users posts users_id_seq posts_id_seq].
      rewrite content_update_twice. reflexivity.
    + apply find_post_updated. exact Hf.
  - intros q Hq Hqid. simpl in Hq. apply in_map_iff in Hq.
    destruct Hq as [q0 [<- _]]. unfold content_update in *.
    destruct (post_has_id post_id q0) eqn:E; [reflexivity|].
    unfold post_has_id in E. apply Z.eqb_neq in E. contradiction.
  - intros Hr. pose proof (reachable_wf db Hr) as Hwf.
    pose proof (find_some _ _ Hf) as [Hin0 Hid0]. apply Z.eqb_eq in Hid0.
    destruct (wf_owner_row db p0 Hwf Hin0) as [u [Hu Huid]].
    exists (post_with_owner (Post.set_content p0 content) u).
    split; [|split; [exact Hid0 | reflexivity]].
    rewrite (post_response_loaded db1 _ u); [reflexivity|].
    simpl. rewrite <- Huid. apply (find_by_key User.id); [|assumption].
    apply insertion_order_NoDup, Hwf.
Qed.

Lemma update_post_content_idempotent_witness :
  (exists p, In p (posts db_alice_post) /\ Post.id p = 1)
  /\ update_post_content 1 "D" (snd (update_post_content 1 "D" db_alice_post))
     = update_post_content 1 "D" db_alice_post
  /\ (forall p, In p (posts (snd (update_post_content 1 "D" db_alice_post))) ->
        Post.id p = 1 -> Post.content p = "D").
Proof.
  assert (He : exists p, In p (posts db_alice_post) /\ Post.id p = 1).
  { exists (Post.mk 1 "T" "C" 1). split; [left; reflexivity | reflexivity]. }
  destruct (update_post_content_idempotent db_alice_post 1 "D" He) as [H1 [H2 _]].
  split; [exact He|]. split; assumption.
Defined.

(** ** Passwords do not flow to the outputs *)

Lemma agree_ret {A} (R : A -> A -> Prop) a1 a2 :
  R a1 a2 -> agree R (ret a1) (ret a2).
Proof. intros Ha db1 db2 Hs. simpl. auto. Qed.

Lemma agree_raise {A} (R : A -> A -> Prop) e :
  agree R (raise e) (raise e).
Proof. intros db1 db2 Hs. simpl. auto. Qed.

Lemma agree_bind {A B} (RA : A -> A -> Prop) (RB : B -> B -> Prop)
      (m1 m2 : Db A) (k1 k2 : A -> Db B) :
  agree RA m1 m2 ->
  (forall a1 a2, RA a1 a2 -> agree RB (k1 a1) (k2 a2)) ->
  agree RB (bind m1 k1) (bind m2 k2).
Proof.
  intros Hm Hk db1 db2 Hs. unfold bind.
  specialize (Hm db1 db2 Hs).
  destruct (m1 db1) as [[e1|a1] s1], (m2 db2) as [[e2|a2] s2]; try contradiction.
  - exact Hm.
  - destruct Hm as [Ha Hs']. exact (Hk a1 a2 Ha s1 s2 Hs').
Qed.

Lemma agree_fst {A} (m1 m2 : Db A) db1 db2 :
  agree eq m1 m2 -> same_but_passwords db1 db2 -> fst (m1 db1) = fst (m2 db2).
Proof.
  intros Hm Hs. specialize (Hm db1 db2 Hs).
  destruct (m1 db1) as [[e1|a1] s1], (m2 db2) as [[e2|a2] s2];
    try contradiction; destruct Hm as [-> _]; reflexivity.
Qed.

Lemma find_related {A} (R : A -> A -> Prop) (c1 c2 : A -> bool) l1 l2 :
  (forall a1 a2, R a1 a2 -> c1 a1 = c2 a2) ->
  Forall2 R l1 l2 -> option_rel R (find c1 l1) (find c2 l2).
Proof.
  intros Hc. induction 1 as [|a1 a2 l1 l2 Ha _ IH]; simpl; [exact I|].
  rewrite (Hc a1 a2 Ha). destruct (c2 a2); [exact Ha | exact IH].
Qed.

Lemma existsb_related {A} (R : A -> A -> Prop) (c1 c2 : A -> bool) l1 l2 :
  (forall a1 a2, R a1 a2 -> c1 a1 = c2 a2) ->
  Forall2 R l1 l2 -> existsb c1 l1 = existsb c2 l2.
Proof.
  intros Hc. induction 1 as [|a1 a2 l1 l2 Ha _ IH]; simpl; [reflexivity|].
  now rewrite (Hc a1 a2 Ha), IH.
Qed.

Lemma filter_related {A} (R : A -> A -> Prop) (c1 c2 : A -> bool) l1 l2 :
  (forall a1 a2, R a1 a2 -> c1 a1 = c2 a2) ->
  Forall2 R l1 l2 -> Forall2 R (filter c1 l1) (filter c2 l2).
Proof.
  intros Hc. induction 1 as [|a1 a2 l1 l2 Ha _ IH]; simpl; [constructor|].
  rewrite (Hc a1 a2 Ha). destruct (c2 a2); [constructor|]; assumption.
Qed.

Lemma map_related {A} (R : A -> A -> Prop) (g1 g2 : A -> A) l1 l2 :
  (forall a1 a2, R a1 a2 -> R (g1 a1) (g2 a2)) ->
  Forall2 R l1 l2 -> Forall2 R (map g1 l1) (map g2 l2).
Proof.
  intros Hg. induction 1; simpl; constructor; auto.
Qed.

Lemma same_but_password_response u1 u2 :
  same_but_password u1 u2 -> user_response u1 = user_response u2.
Proof.
  intros [Hi [Hn He]]. unfold user_response. now rewrite Hi, Hn, He.
Qed.

Lemma same_but_password_has_id i u1 u2 :
  same_but_password u1 u2 -> user_has_id i u1 = user_has_id i u2.
Proof. intros [Hi _]. unfold user_has_id. now rewrite Hi. Qed.

Lemma agree_first_user (c1 c2 : User.t -> bool) :
  (forall u1 u2, same_but_password u1 u2 -> c1 u1 = c2 u2) ->
  agree (option_rel same_but_password) (first_user c1) (first_user c2).
Proof.
  intros Hc db1 db2 Hs. simpl. split; [|exact Hs].
  apply find_related; [exact Hc | apply Hs].
Qed.

Lemma agree_first_post (c : Post.t -> bool) :
  agree eq (first_post c) (first_post c).
Proof.
  intros db1 db2 Hs. simpl. split; [|exact Hs].
  destruct Hs as [_ [-> _]]. reflexivity.
Qed.

Lemma agree_refresh_user u1 u2 :
  same_but_password u1 u2 ->
  agree same_but_password (refresh_user u1) (refresh_user u2).
Proof.
  intros Hu db1 db2 Hs. unfold refresh_user.
  pose proof (find_related same_but_password (user_has_id (User.id u1))
                (user_has_id (User.id u2)) (users db1) (users db2)) as Hf.
  destruct Hu as [Hi _]. rewrite Hi in *.
  specialize (Hf (same_but_password_has_id _) (proj1 Hs)).
  destruct (find _ (users db1)), (find _ (users db2)); simpl in Hf;
    try contradiction; auto.
Qed.

Lemma agree_refresh_post p :
  agree eq (refresh_post p) (refresh_post p).
Proof.
  intros db1 db2 Hs. unfold refresh_post.
  destruct Hs as [Hu [Hp Hq]]. rewrite <- Hp.
  destruct (find _ (posts db1)); (split; [reflexivity|]);
    unfold same_but_passwords; auto.
Qed.

Lemma agree_add_user username email password :
  agree same_but_password (add_user username email password)
        (add_user username email password).
Proof.
  intros db1 db2 [Hu [Hp [Hs1 Hs2]]]. unfold add_user.
  rewrite (existsb_related same_but_password _
             (fun u => String.eqb (User.username u) username) _ _
             (fun u1 u2 (H : same_but_password u1 u2) =>
                f_equal (fun s => String.eqb s username) (proj1 (proj2 H))) Hu).
  rewrite (existsb_related same_but_password _
             (fun u => String.eqb (User.email u) email) _ _
             (fun u1 u2 (H : same_but_password u1 u2) =>
                f_equal (fun s => String.eqb s email) (proj2 (proj2 H))) Hu).
  rewrite Hs1.
  destruct (existsb _ (users db2));
    [|destruct (existsb _ (users db2))];
    (split; [reflexivity || (repeat split) |]);
    unfold same_but_passwords; simpl; repeat split; auto.
  apply Forall2_app; [assumption|]. repeat constructor.
Qed.

Lemma agree_add_post title content user_id :
  agree eq (add_post title content user_id) (add_post title content user_id).
Proof.
  intros db1 db2 [Hu [Hp [Hs1 Hs2]]]. unfold add_post.
  rewrite (existsb_related same_but_password _ (user_has_id user_id) _ _
             (same_but_password_has_id user_id) Hu).
  rewrite Hs2, Hp.
  destruct (existsb _ (users db2)); (split; [reflexivity|]);
    unfold same_but_passwords; simpl; repeat split; auto.
Qed.

Lemma agree_delete_user_row u1 u2 :
  same_but_password u1 u2 ->
  agree eq (delete_user_row u1) (delete_user_row u2).
Proof.
  intros [Hi _] db1 db2 [Hu [Hp [Hs1 Hs2]]]. unfold delete_user_row.
  split; [reflexivity|]. unfold same_but_passwords; simpl.
  rewrite Hi, Hp. repeat split; auto.
  apply filter_related; [|assumption].
  intros a1 a2 Ha. now rewrite (same_but_password_has_id _ a1 a2 Ha).
Qed.

Lemma agree_delete_post_row p :
  agree eq (delete_post_row p) (delete_post_row p).
Proof.
  intros db1 db2 [Hu [Hp [Hs1 Hs2]]]. unfold delete_post_row.
  split; [reflexivity|]. unfold same_but_passwords; simpl.
  rewrite Hp. repeat split; auto.
Qed.

Lemma email_update_related i e u1 u2 :
  same_but_password u1 u2 ->
  same_but_password (email_update i e u1) (email_update i e u2).
Proof.
  intros Hu. unfold email_update.
  rewrite (same_but_password_has_id i u1 u2 Hu).
  destruct Hu as [Hi [Hn He]].
  destruct (user_has_id i u2); unfold same_but_password; simpl; auto.
Qed.

Lemma agree_write_user_email u1 u2 email :
  same_but_password u1 u2 ->
  agree eq (write_user_email u1 email) (write_user_email u2 email).
Proof.
  intros [Hi _] db1 db2 [Hu [Hp [Hs1 Hs2]]]. unfold write_user_email.
  rewrite Hi.
  rewrite (existsb_related same_but_password _
             (fun r => String.eqb (User.email r) email
                       && negb (user_has_id (User.id u2) r)) _ _
             (fun a1 a2 (H : same_but_password a1 a2) =>
                f_equal2 (fun s b => String.eqb s email && negb b)
                         (proj2 (proj2 H))
                         (same_but_password_has_id (User.id u2) a1 a2 H)) Hu).
  destruct (existsb _ (users db2)); (split; [reflexivity|]);
    unfold same_but_passwords; simpl; repeat split; auto.
  apply map_related; [|assumption]. intros; now apply email_update_related.
Qed.

Lemma agree_write_post_content p content :
  agree eq (write_post_content p content) (write_post_content p content).
Proof.
  intros db1 db2 [Hu [Hp [Hs1 Hs2]]]. unfold write_post_content.
  split; [reflexivity|]. unfold same_but_passwords; simpl.
  rewrite Hp. repeat split; auto.
Qed.

Lemma agree_post_response p :
  agree eq (post_response p) (post_response p).
Proof.
  unfold post_response.
  eapply agree_bind; [apply agree_first_user, same_but_password_has_id|].
  intros [u1|] [u2|] Ho; simpl in Ho; try contradiction.
  - apply agree_ret. now rewrite (same_but_password_response u1 u2 Ho).
  - apply agree_raise.
Qed.

Lemma agree_mapM_post_response rows :
  agree eq (mapM post_response rows) (mapM post_response rows).
Proof.
  induction rows as [|p rows IH]; simpl; [now apply agree_ret|].
  eapply agree_bind; [apply agree_post_response|]. intros r ? <-.
  eapply agree_bind; [exact IH|]. intros rs ? <-. now apply agree_ret.
Qed.

Lemma agree_get_user user_id :
  agree eq (get_user user_id) (get_user user_id).
Proof.
  unfold get_user.
  eapply agree_bind; [apply agree_first_user, same_but_password_has_id|].
  intros [u1|] [u2|] Ho; simpl in Ho; try contradiction.
  - apply agree_ret. now apply same_but_password_response.
  - apply agree_raise.
Qed.

Lemma agree_get_post post_id :
  agree eq (get_post post_id) (get_post post_id).
Proof.
  unfold get_post.
  eapply agree_bind; [apply agree_first_post|]. intros [p|] ? <-.
  - apply agree_post_response.
  - apply agree_raise.
Qed.

Lemma agree_create_user user :
  agree eq (create_user user) (create_user user).
Proof.
  unfold create_user.
  eapply agree_bind.
  { apply agree_first_user. intros u1 u2 [_ [Hn He]]. now rewrite Hn, He. }
  intros [u1|] [u2|] Ho; simpl in Ho; try contradiction.
  - apply agree_raise.
  - eapply agree_bind; [apply agree_add_user|]. intros a1 a2 Ha.
    eapply agree_bind; [apply agree_refresh_user, Ha|]. intros b1 b2 Hb.
    apply agree_ret. now apply same_but_password_response.
Qed.

Lemma agree_delete_user user_id :
  agree eq (delete_user user_id) (delete_user user_id).
Proof.
  unfold delete_user.
  eapply agree_bind; [apply agree_first_user, same_but_password_has_id|].
  intros [u1|] [u2|] Ho; simpl in Ho; try contradiction.
  - eapply agree_bind; [apply agree_delete_user_row, Ho|]. intros ? ? _.
    now apply agree_ret.
  - apply agree_raise.
Qed.

Lemma agree_change_user_email user_id email :
  agree eq (change_user_email user_id email) (change_user_email user_id email).
Proof.
  unfold change_user_email.
  eapply agree_bind; [apply agree_first_user, same_but_password_has_id|].
  intros [u1|] [u2|] Ho; simpl in Ho; try contradiction; [|apply agree_raise].
  eapply agree_bind.
  { apply agree_first_user. intros a1 a2 [_ [_ He]]. now rewrite He. }
  intros [v1|] [v2|] Hv; simpl in Hv; try contradiction; [apply agree_raise|].
  eapply agree_bind; [apply agree_write_user_email, Ho|]. intros ? ? _.
  eapply agree_bind; [apply agree_refresh_user, Ho|]. intros b1 b2 Hb.
  apply agree_ret. now apply same_but_password_response.
Qed.

Lemma agree_update_post_content post_id content :
  agree eq (update_post_content post_id content)
        (update_post_content post_id content).
Proof.
  unfold update_post_content.
  eapply agree_bind; [apply agree_first_post|]. intros [p|] ? <-;
    [|apply agree_raise].
  eapply agree_bind; [apply agree_write_post_content|]. intros ? ? _.
  eapply agree_bind; [apply agree_refresh_post|]. intros q ? <-.
  apply agree_post_response.
Qed.

Lemma agree_create_post post :
  agree eq (create_post post) (create_post post).
Proof.
  unfold create_post.
  eapply agree_bind; [apply agree_first_user, same_but_password_has_id|].
  intros [u1|] [u2|] Ho; simpl in Ho; try contradiction; [|apply agree_raise].
  eapply agree_bind; [apply agree_add_post|]. intros p ? <-.
  eapply agree_bind; [apply agree_refresh_post|]. intros q ? <-.
  apply agree_post_response.
Qed.

Lemma agree_delete_post post_id :
  agree eq (delete_post post_id) (delete_post post_id).
Proof.
  unfold delete_post.
  eapply agree_bind; [apply agree_first_post|]. intros [p|] ? <-;
    [|apply agree_raise].
  eapply agree_bind; [apply agree_delete_post_row|]. intros ? ? _.
  now apply agree_ret.
Qed.

Lemma get_users_answers db out :
  get_users db out <-> Permutation (map user_response (users db)) out.
Proof.
  unfold get_users, query_all. split.
  - intros [rows [Hp ->]]. now apply Permutation_map.
  - intros Hp. apply Permutation_sym, Permutation_map_inv in Hp.
    destruct Hp as [rows [-> Hp]]. exists rows. split; [assumption | reflexivity].
Qed.

Lemma same_but_passwords_responses db1 db2 :
  same_but_passwords db1 db2 ->
  map user_response (users db1) = map user_response (users db2).
Proof.
  intros [Hu _]. induction Hu as [|u1 u2 l1 l2 Hu _ IH]; simpl; [reflexivity|].
  now rewrite IH, (same_but_password_response u1 u2 Hu).
Qed.

Lemma same_but_passwords_sym db1 db2 :
  same_but_passwords db1 db2 -> same_but_passwords db2 db1.
Proof.
  intros [Hu [Hp [H1 H2]]]. unfold same_but_passwords. repeat split; auto.
  clear -Hu. induction Hu as [|u1 u2 l1 l2 [Hi [Hn He]] _ IH]; constructor; auto.
  unfold same_but_password; auto.
Qed.

Lemma get_posts_same db1 db2 res :
  same_but_passwords db1 db2 -> get_posts db1 res -> get_posts db2 res.
Proof.
  intros Hs [rows [Hq ->]]. exists rows. split.
  - destruct Hs as [_ [<- _]]. exact Hq.
  - apply agree_fst; [apply agree_mapM_post_response | exact Hs].
Qed.

(** C6. The answer of a handler is a [UserResponse.t] (identifier, username
    and email of the row, nothing else), a [PostResponse.t] holding one, or
    a message.  For two databases that differ only in stored passwords,
    [get_user], [get_post] and the six writing handlers give the same
    answer, and [get_users] and [get_posts] have the same possible
    answers. *)
Theorem password_never_in_output db1 db2 :
  same_but_passwords db1 db2 ->
  (forall u, user_response u
             = UserResponse.mk (User.id u) (User.username u) (User.email u))
  /\ (forall user_id, fst (get_user user_id db1) = fst (get_user user_id db2))
  /\ (forall out, get_users db1 out <-> get_users db2 out)
  /\ (forall post_id, fst (get_post post_id db1) = fst (get_post post_id db2))
  /\ (forall res, get_posts db1 res <-> get_posts db2 res)
  /\ (forall user, fst (create_user user db1) = fst (create_user user db2))
  /\ (forall user_id, fst (delete_user user_id db1) = fst (delete_user user_id db2))
  /\ (forall user_id email,
        fst (change_user_email user_id email db1)
        = fst (change_user_email user_id email db2))
  /\ (forall post_id content,
        fst (update_post_content post_id content db1)
        = fst (update_post_content post_id content db2))
  /\ (forall post, fst (create_post post db1) = fst (create_post post db2))
  /\ (forall post_id, fst (delete_post post_id db1) = fst (delete_post post_id db2)).
Proof.
  intros Hs. repeat split.
  - intros; apply agree_fst; [apply agree_get_user | exact Hs].
  - rewrite !get_users_answers, (same_but_passwords_responses db1 db2 Hs). auto.
  - rewrite !get_users_answers, (same_but_passwords_responses db1 db2 Hs). auto.
  - intros; apply agree_fst; [apply agree_get_post | exact Hs].
  - now apply get_posts_same.
  - apply get_posts_same. now apply same_but_passwords_sym.
  - intros; apply agree_fst; [apply agree_create_user | exact Hs].
  - intros; apply agree_fst; [apply agree_delete_user | exact Hs].
  - intros; apply agree_fst; [apply agree_change_user_email | exact Hs].
  - intros; apply agree_fst; [apply agree_update_post_content | exact Hs].
  - intros; apply agree_fst; [apply agree_create_post | exact Hs].
  - intros; apply agree_fst; [apply agree_delete_post | exact Hs].
Qed.

Lemma password_never_in_output_witness :
  same_but_passwords db_alice db_alice_other_password
  /\ fst (get_user 1 db_alice) = fst (get_user 1 db_alice_other_password)
  /\ (forall out, get_users db_alice out <-> get_users db_alice_other_password out)
  /\ (forall res, get_posts db_alice res <-> get_posts db_alice_other_password res).
Proof.
  assert (Hs : same_but_passwords db_alice db_alice_other_password).
  { unfold same_but_passwords; simpl. repeat split.
    repeat constructor. }
  destruct (password_never_in_output db_alice db_alice_other_password Hs)
    as [_ [Hu [Hus [_ [Hps _]]]]].
  split; [exact Hs|]. split; [apply Hu|]. split; assumption.
Defined.

(** ** Listing the tables *)

Lemma users_listed_once db out :
  wf db -> get_users db out ->
  Permutation (map user_response (users db)) out
  /\ NoDup (map UserResponse.id out).
Proof.
  intros Hwf Hg. apply get_users_answers in Hg. split; [assumption|].
  apply (Permutation_NoDup (l := map UserResponse.id (map user_response (users db)))).
  - now apply Permutation_map.
  - rewrite map_map. simpl. apply insertion_order_NoDup, Hwf.
Qed.

Lemma posts_listed_once db res :
  wf db -> get_posts db res ->
  exists rows out,
    res = inr out
    /\ Permutation (posts db) rows
    /\ Forall2 (owner_loaded db) rows out
    /\ NoDup (map PostResponse.id out).
Proof.
  intros Hwf Hg.
  destruct (get_posts_loaded db res Hwf Hg) as [rows [out [Hq [-> [Hl Hids]]]]].
  exists rows, out. repeat split; try assumption.
  rewrite Hids. apply (Permutation_NoDup (l := map Post.id (posts db))).
  - now apply Permutation_map.
  - apply insertion_order_NoDup, Hwf.
Qed.

(** C8, as the code has it.  In a reachable state every answer of
    [get_users] holds each row of [users] once, and every answer of
    [get_posts] holds each row of [posts] once with its user loaded.  The
    tables keep their rows in insertion order (ascending identifiers), and
    the list in that order is a possible answer; the queries ask for no
    order, so it is not the only one. *)
Theorem listings_complete db :
  reachable db ->
  (forall out, get_users db out ->
     Permutation (map user_response (users db)) out
     /\ NoDup (map UserResponse.id out))
  /\ (forall res, get_posts db res ->
        exists rows out,
          res = inr out
          /\ Permutation (posts db) rows
          /\ Forall2 (owner_loaded db) rows out
          /\ NoDup (map PostResponse.id out))
  /\ in_insertion_order (map User.id (users db))
  /\ in_insertion_order (map Post.id (posts db))
  /\ get_users db (map user_response (users db))
  /\ (exists out, get_posts db (inr out)
                  /\ Forall2 (owner_loaded db) (posts db) out).
Proof.
  intros Hr. pose proof (reachable_wf db Hr) as Hwf.
  split; [intros; now apply users_listed_once|].
  split; [intros; now apply posts_listed_once|].
  split; [apply Hwf|]. split; [apply Hwf|]. split.
  - exists (users db). split; [apply Permutation_refl | reflexivity].
  - destruct (mapM_post_response_loaded db (posts db) Hwf (fun p H => H))
      as [out [Hm [Hl _]]].
    exists out. split; [|assumption].
    exists (posts db). split; [apply Permutation_refl | now rewrite Hm].
Qed.

Lemma listings_complete_witness :
  reachable db_alice_bob
  /\ (forall out, get_users db_alice_bob out ->
        Permutation (map user_response (users db_alice_bob)) out
        /\ NoDup (map UserResponse.id out))
  /\ in_insertion_order (map User.id (users db_alice_bob))
  /\ get_users db_alice_bob
       [UserResponse.mk 1 "alice" "a@x.com"; UserResponse.mk 2 "bob" "b@x.com"].
Proof.
  assert (Hr : reachable db_alice_bob).
  { apply reachable_create_user, reachable_create_user, reachable_empty. }
  destruct (listings_complete db_alice_bob Hr) as [H1 [_ [H3 [_ [H5 _]]]]].
  split; [exact Hr|]. split; [exact H1|]. split; [exact H3 | exact H5].
Defined.

(** C8 as stated fails.  Alice has two posts and the first one was
    updated.  The query of [get_posts] asks for no order, so the engine may
    answer with the second post first (PostgreSQL writes the new version of
    an updated row behind the rows already stored, and scans in storage
    order); that answer is not in insertion order. *)
Lemma listing_order_counterexample :
  ~ (forall db res,
       reachable db -> get_posts db res ->
       exists out, res = inr out
                   /\ in_insertion_order (map PostResponse.id out)).
Proof.
  intros H.
  destruct (H db_first_post_updated
              (inr [PostResponse.mk 2 "U" "E" (UserResponse.mk 1 "alice" "a@x.com");
                    PostResponse.mk 1 "T" "D" (UserResponse.mk 1 "alice" "a@x.com")]))
    as [out [Hout Hs]].
  - apply reachable_update_post_content, reachable_create_post,
      reachable_create_post, reachable_create_user, reachable_empty.
  - exists [Post.mk 2 "U" "E" 1; Post.mk 1 "T" "D" 1].
    split; [apply perm_swap | reflexivity].
  - injection Hout as <-. simpl in Hs.
    inversion Hs as [|? ? _ Hlt]; subst.
    inversion Hlt as [|? ? Hlt1 _]; subst. lia.
Qed.

(** ** Steps and reachability *)

Ltac case_db_in H :=
  repeat (match type of H with
          | context [match find ?c ?l with _ => _ end] => destruct (find c l) eqn:?
          | context [if existsb ?c ?l then _ else _] => destruct (existsb c l) eqn:?
          end; simpl in H).

Lemma step_reachable db1 db2 : reachable db1 -> step db1 db2 -> reachable db2.
Proof. intros Hr Hs. destruct Hs; now constructor. Qed.

Lemma evolves_reachable db db' : reachable db -> evolves db db' -> reachable db'.
Proof.
  intros Hr He. induction He as [|db1 db2 _ IH Hs]; [assumption|].
  exact (step_reachable db1 db2 IH Hs).
Qed.

Lemma reachable_evolves db : reachable db -> evolves empty_db db.
Proof.
  induction 1; [constructor | | | | | | ];
    (eapply evolves_step; [eassumption | constructor]).
Qed.

Lemma step_wf db1 db2 : wf db1 -> step db1 db2 -> wf db2.
Proof.
  intros Hwf Hs. destruct Hs; unfold_db; case_db; simpl; auto with wf_db.
Qed.

Lemma evolves_wf db db' : wf db -> evolves db db' -> wf db'.
Proof.
  intros Hwf He. induction He as [|db1 db2 _ IH Hs]; [assumption|].
  exact (step_wf db1 db2 IH Hs).
Qed.

Lemma same_key_same_row {A} (key : A -> Z) (l : list A) (a b : A) :
  NoDup (map key l) -> In a l -> In b l -> key a = key b -> a = b.
Proof.
  intros Hnd Ha Hb Hk.
  pose proof (find_by_key key l a Hnd Ha) as Fa.
  pose proof (find_by_key key l b Hnd Hb) as Fb.
  rewrite Hk in Fa. rewrite Fa in Fb. now injection Fb.
Qed.

(** ** A handler that raises an HTTP error has written nothing *)

Ltac http_error_unchanged H :=
  unfold_db; repeat (case_db_in H; simpl in H); congruence.

Lemma http_error_unchanged_fst {A} (m : Db A) db status detail :
  (forall db', m db = (inl (HTTPException status detail), db') -> db' = db) ->
  fst (m db) = inl (HTTPException status detail) -> snd (m db) = db.
Proof.
  intros Hm. destruct (m db) as [r s]. simpl. intros ->. now apply Hm.
Qed.

(** X1. Whenever a handler raises an [HTTPException], the database is
    exactly as it was before the call: each handler runs its checks before
    its first write. *)
Theorem http_error_writes_nothing db status detail :
  (forall user,
     fst (create_user user db) = inl (HTTPException status detail) ->
     snd (create_user user db) = db)
  /\ (forall user_id,
        fst (get_user user_id db) = inl (HTTPException status detail) ->
        snd (get_user user_id db) = db)
  /\ (forall user_id,
        fst (delete_user user_id db) = inl (HTTPException status detail) ->
        snd (delete_user user_id db) = db)
  /\ (forall user_id email,
        fst (change_user_email user_id email db) = inl (HTTPException status detail) ->
        snd (change_user_email user_id email db) = db)
  /\ (forall post_id content,
        fst (update_post_content post_id content db)
        = inl (HTTPException status detail) ->
        snd (update_post_content post_id content db) = db)
  /\ (forall post,
        fst (create_post post db) = inl (HTTPException status detail) ->
        snd (create_post post db) = db)
  /\ (forall post_id,
        fst (get_post post_id db) = inl (HTTPException status detail) ->
        snd (get_post post_id db) = db)
  /\ (forall post_id,
        fst (delete_post post_id db) = inl (HTTPException status detail) ->
        snd (delete_post post_id db) = db).
Proof.
  repeat split; intros *; apply http_error_unchanged_fst; intros db' H.
  - http_error_unchanged H.
  - http_error_unchanged H.
  - http_error_unchanged H.
  - http_error_unchanged H.
  - http_error_unchanged H.
  - http_error_unchanged H.
  - http_error_unchanged H.
  - http_error_unchanged H.
Qed.

Lemma http_error_writes_nothing_witness :
  fst (create_user alice2 db_alice)
  = inl (HTTPException 400 "User with this username or email already exists")
  /\ snd (create_user alice2 db_alice) = db_alice.
Proof.
  split; [reflexivity|].
  apply (proj1 (http_error_writes_nothing db_alice 400
                  "User with this username or email already exists") alice2).
  reflexivity.
Defined.

(** ** Handlers raise nothing but their own HTTP errors *)

Lemma find_none_ids {A} (key : A -> Z) (l : list A) (i : Z) :
  find (fun r => key r =? i) l = None <-> (forall r, In r l -> key r <> i).
Proof.
  split.
  - intros Hf r Hin. apply (find_none _ _ Hf) in Hin. now apply Z.eqb_neq.
  - intros Hno. destruct (find _ l) as [r|] eqn:Hf; [|reflexivity].
    apply find_some in Hf. destruct Hf as [Hin Hid]. apply Z.eqb_eq in Hid.
    now apply Hno in Hin.
Qed.

Lemma update_post_content_found db post_id content p :
  wf db -> In p (posts db) -> Post.id p = post_id ->
  exists u,
    In u (users db) /\ User.id u = Post.user_id p
    /\ update_post_content post_id content db
       = (inr (post_with_owner (Post.set_content p content) u),
          mkStore (users db) (map (content_update post_id content) (posts db))
                  (users_id_seq db) (posts_id_seq db)).
Proof.
  intros Hwf Hp Hid.
  destruct (wf_owner_row db p Hwf Hp) as [u [Hu Huid]].
  exists u. split; [assumption|]. split; [assumption|].
  rewrite (update_post_content_writes db post_id content p).
  - apply post_response_loaded. simpl. rewrite <- Huid.
    apply (find_by_key User.id); [|assumption]. apply insertion_order_NoDup, Hwf.
  - rewrite <- Hid. apply (find_by_key Post.id); [|assumption].
    apply insertion_order_NoDup, Hwf.
Qed.



(** ** Usernames and emails stay unique *)

Lemma NoDup_map_filter {A B} (f : A -> B) (c : A -> bool) (l : list A) :
  NoDup (map f l) -> NoDup (map f (filter c l)).
Proof.
  induction l as [|a l IH]; simpl; intros Hnd; [constructor|].
  inversion Hnd as [|? ? Ha Hnd']; subst.
  destruct (c a); simpl; [|auto].
  constructor; [|auto].
  intros Hin. apply Ha. apply in_map_iff in Hin.
  destruct Hin as [x [Hx Hin]]. apply filter_In in Hin.
  apply in_map_iff. exists x. tauto.
Qed.

Lemma NoDup_map_app_fresh {A} (f : A -> string) (l : list A) (a : A) :
  NoDup (map f l) ->
  existsb (fun r => String.eqb (f r) (f a)) l = false ->
  NoDup (map f (l ++ [a])).
Proof.
  intros Hnd Hex. rewrite map_app. simpl.
  apply NoDup_app; [assumption | repeat constructor; intros [] |].
  intros x Hin [<-|[]]. apply in_map_iff in Hin. destruct Hin as [r [Hr Hin]].
  assert (Ht : existsb (fun r => String.eqb (f r) (f a)) l = true).
  { apply existsb_exists. exists r. split; [assumption | now apply String.eqb_eq]. }
  congruence.
Qed.

Lemma email_update_other i e (l : list User.t) :
  (forall r, In r l -> User.id r <> i) -> map (email_update i e) l = l.
Proof.
  intros Hno. induction l as [|a l IH]; simpl; [reflexivity|].
  rewrite IH by (intros; apply Hno; now right).
  unfold email_update, user_has_id.
  destruct (Z.eqb_spec (User.id a) i) as [E|_]; [|reflexivity].
  exfalso. apply (Hno a); [now left | exact E].
Qed.

Lemma NoDup_email_update i e (l : list User.t) :
  NoDup (map User.id l) -> NoDup (map User.email l) ->
  existsb (fun r => String.eqb (User.email r) e && negb (user_has_id i r)) l = false ->
  NoDup (map User.email (map (email_update i e) l)).
Proof.
  induction l as [|a l IH]; simpl; intros Hid Hem Hex; [constructor|].
  inversion Hid as [|? ? Ha Hid']; subst.
  inversion Hem as [|? ? Hb Hem']; subst.
  apply orb_false_elim in Hex. destruct Hex as [Hexa Hex].
  assert (Hother : forall r, In r l -> User.email r = e -> User.id r = i).
  { intros r Hr He.
    assert (Hf : (String.eqb (User.email r) e && negb (user_has_id i r)) = false).
    { destruct (String.eqb (User.email r) e && negb (user_has_id i r)) eqn:E;
        [|reflexivity].
      assert (Ht : existsb (fun r => String.eqb (User.email r) e
                                     && negb (user_has_id i r)) l = true)
        by (apply existsb_exists; exists r; auto).
      congruence. }
    apply String.eqb_eq in He. rewrite He in Hf. simpl in Hf.
    apply negb_false_iff in Hf. now apply Z.eqb_eq. }
  unfold email_update at 1. destruct (user_has_id i a) eqn:Ei.
  - apply Z.eqb_eq in Ei. rewrite email_update_other.
    + simpl. constructor; [|assumption].
      intros Hin. apply in_map_iff in Hin. destruct Hin as [r [He Hr]].
      apply Ha. apply in_map_iff. exists r. split; [|assumption].
      rewrite (Hother r Hr He). now symmetry.
    + intros r Hr E. apply Ha. apply in_map_iff. exists r.
      split; [congruence | assumption].
  - constructor; [|now apply IH].
    simpl in Hexa. rewrite andb_true_r in Hexa. apply String.eqb_neq in Hexa.
    intros Hin. apply in_map_iff in Hin. destruct Hin as [r' [He' Hr']].
    apply in_map_iff in Hr'. destruct Hr' as [r [<- Hr]].
    unfold email_update in He'. destruct (user_has_id i r); simpl in He'.
    + congruence.
    + apply Hb. apply in_map_iff. exists r. auto.
Qed.

Lemma map_username_email_update i e (l : list User.t) :
  map User.username (map (email_update i e) l) = map User.username l.
Proof.
  rewrite map_map. apply map_ext. intros r. unfold email_update.
  destruct (user_has_id i r); reflexivity.
Qed.

Lemma step_unique_credentials db1 db2 :
  wf db1 -> unique_credentials db1 -> step db1 db2 -> unique_credentials db2.
Proof.
  intros Hwf [Hn He] Hs.
  destruct Hs; unfold_db; case_db; simpl; unfold unique_credentials; simpl;
    try (split; assumption);
    try (split; apply NoDup_map_filter; assumption).
  all: first
    [ split;
      [ apply (NoDup_map_app_fresh User.username)
      | apply (NoDup_map_app_fresh User.email) ]; assumption
    | split;
      [ rewrite map_username_email_update; assumption
      | apply NoDup_email_update; try assumption;
        apply insertion_order_NoDup, Hwf ] ].
Qed.

(** X3. In every reachable state no two users have the same username and
    no two users have the same email: [create_user] and [change_user_email]
    look the values up before they write. *)
Theorem usernames_and_emails_unique db :
  reachable db ->
  forall u v, In u (users db) -> In v (users db) ->
    (User.username u = User.username v \/ User.email u = User.email v) -> u = v.
Proof.
  intros Hr.
  assert (Huc : unique_credentials db).
  { pose proof (reachable_evolves db Hr) as He.
    induction He as [|db1 db2 He IH Hs].
    - split; constructor.
    - apply (step_unique_credentials db1 db2); [| |assumption].
      + apply reachable_wf. now apply (evolves_reachable empty_db); [constructor|].
      + apply IH. now apply (evolves_reachable empty_db); [constructor|]. }
  destruct Huc as [Hn He].
  assert (Hcol : forall (f : User.t -> string) l (a b : User.t),
             NoDup (map f l) -> In a l -> In b l -> f a = f b -> a = b).
  { intros f l. induction l as [|x l IH]; simpl; intros a b Hnd Ha Hb Hf;
      [contradiction|].
    inversion Hnd as [|? ? Hx Hnd']; subst.
    destruct Ha as [->|Ha], Hb as [->|Hb]; auto.
    - exfalso. apply Hx. rewrite Hf. now apply in_map.
    - exfalso. apply Hx. rewrite <- Hf. now apply in_map. }
  intros u v Hu Hv [E|E].
  - exact (Hcol User.username _ u v Hn Hu Hv E).
  - exact (Hcol User.email _ u v He Hu Hv E).
Qed.

Lemma usernames_and_emails_unique_witness :
  reachable db_alice_bob
  /\ forall v, In v (users db_alice_bob) -> User.username v = "bob" ->
       User.mk 2 "bob" "b@x.com" "pw2" = v.
Proof.
  assert (Hr : reachable db_alice_bob).
  { apply reachable_create_user, reachable_create_user, reachable_empty. }
  split; [exact Hr|].
  intros v Hv Hn.
  apply (usernames_and_emails_unique db_alice_bob Hr
           (User.mk 2 "bob" "b@x.com" "pw2") v).
  - right; left; reflexivity.
  - exact Hv.
  - left. now symmetry.
Defined.

(** ** Identifiers and the fields that no handler writes *)

Lemma step_sequences db1 db2 :
  step db1 db2 ->
  users_id_seq db1 <= users_id_seq db2 /\ posts_id_seq db1 <= posts_id_seq db2.
Proof. intros Hs. destruct Hs; unfold_db; case_db; simpl; lia. Qed.

Lemma evolves_sequences db db' :
  evolves db db' ->
  users_id_seq db <= users_id_seq db' /\ posts_id_seq db <= posts_id_seq db'.
Proof.
  induction 1 as [|db1 db2 _ IH Hs]; [lia|].
  apply step_sequences in Hs. lia.
Qed.

Lemma create_user_id db user r db' :
  create_user user db = (inr r, db') -> UserResponse.id r = users_id_seq db.
Proof.
  intros H. unfold_db. case_db_in H; try discriminate.
  injection H as <- _. simpl.
  match goal with
  | Hf : find (user_has_id _) _ = Some _ |- _ =>
      apply find_some in Hf; destruct Hf as [_ Hid]; now apply Z.eqb_eq in Hid
  end.
Qed.

Lemma create_post_id db post r db' :
  create_post post db = (inr r, db') -> PostResponse.id r = posts_id_seq db.
Proof.
  intros H. unfold_db. case_db_in H; try discriminate.
  injection H as <- _. simpl.
  match goal with
  | Hf : find (post_has_id _) _ = Some _ |- _ =>
      apply find_some in Hf; destruct Hf as [_ Hid]; now apply Z.eqb_eq in Hid
  end.
Qed.

(** X4. Identifiers are never given twice: after any number of calls,
    deletions included, a user created now has an identifier different from
    that of every user that ever was in the table, and so has a post. *)
Theorem identifiers_never_reused db db' :
  reachable db -> evolves db db' ->
  (forall u user r db'',
     In u (users db) -> create_user user db' = (inr r, db'') ->
     UserResponse.id r <> User.id u)
  /\ (forall p post r db'',
        In p (posts db) -> create_post post db' = (inr r, db'') ->
        PostResponse.id r <> Post.id p).
Proof.
  intros Hr He. pose proof (reachable_wf db Hr) as [_ Hu _ Hp _].
  apply evolves_sequences in He. rewrite Forall_forall in Hu, Hp. split.
  - intros u user r db'' Hin Hc. rewrite (create_user_id _ _ _ _ Hc).
    specialize (Hu u Hin). lia.
  - intros p post r db'' Hin Hc. rewrite (create_post_id _ _ _ _ Hc).
    specialize (Hp p Hin). lia.
Qed.

Lemma identifiers_never_reused_witness :
  reachable db_alice
  /\ evolves db_alice (snd (delete_user 1 db_alice))
  /\ fst (create_user alice (snd (delete_user 1 db_alice)))
     = inr (UserResponse.mk 2 "alice" "a@x.com")
  /\ UserResponse.id (UserResponse.mk 2 "alice" "a@x.com") <> 1.
Proof.
  assert (Hr : reachable db_alice) by (apply reachable_create_user, reachable_empty).
  assert (He : evolves db_alice (snd (delete_user 1 db_alice))).
  { eapply evolves_step; [apply evolves_refl | apply step_delete_user]. }
  split; [exact Hr|]. split; [exact He|]. split; [reflexivity|].
  apply (proj1 (identifiers_never_reused db_alice _ Hr He)
           (User.mk 1 "alice" "a@x.com" "pw1") alice _
           (snd (create_user alice (snd (delete_user 1 db_alice))))).
  - left; reflexivity.
  - reflexivity.
Defined.

Lemma step_user_rows db1 db2 :
  step db1 db2 ->
  forall u2, In u2 (users db2) ->
    User.id u2 = users_id_seq db1
    \/ exists u1, In u1 (users db1) /\ User.id u1 = User.id u2
                  /\ User.username u1 = User.username u2
                  /\ User.password u1 = User.password u2.
Proof.
  intros Hs.
  destruct Hs; unfold_db; case_db; simpl; intros u2 Hin;
    first
      [ right; exists u2; now auto
      | apply in_app_or in Hin; destruct Hin as [Hin|[<-|[]]];
        [right; exists u2; now auto | left; reflexivity]
      | apply filter_In in Hin; right; exists u2; tauto
      | apply in_map_iff in Hin; destruct Hin as [u1 [<- Hin]];
        right; exists u1; unfold email_update;
        destruct (user_has_id _ u1); now auto ].
Qed.

Lemma step_post_rows db1 db2 :
  step db1 db2 ->
  forall p2, In p2 (posts db2) ->
    Post.id p2 = posts_id_seq db1
    \/ exists p1, In p1 (posts db1) /\ Post.id p1 = Post.id p2
                  /\ Post.title p1 = Post.title p2
                  /\ Post.user_id p1 = Post.user_id p2.
Proof.
  intros Hs.
  destruct Hs; unfold_db; case_db; simpl; intros p2 Hin;
    first
      [ right; exists p2; now auto
      | apply in_app_or in Hin; destruct Hin as [Hin|[<-|[]]];
        [right; exists p2; now auto | left; reflexivity]
      | apply filter_In in Hin; right; exists p2; tauto
      | apply in_map_iff in Hin; destruct Hin as [p1 [<- Hin]];
        right; exists p1; unfold content_update;
        destruct (post_has_id _ p1); now auto ].
Qed.

Lemma evolves_old_rows db db' :
  evolves db db' ->
  (forall u', In u' (users db') -> User.id u' < users_id_seq db ->
     exists u, In u (users db) /\ User.id u = User.id u'
               /\ User.username u = User.username u'
               /\ User.password u = User.password u')
  /\ (forall p', In p' (posts db') -> Post.id p' < posts_id_seq db ->
        exists p, In p (posts db) /\ Post.id p = Post.id p'
                  /\ Post.title p = Post.title p'
                  /\ Post.user_id p = Post.user_id p').
Proof.
  intros He. induction He as [|db1 db2 He IH Hs].
  - split; [intros u' Hin _; exists u' | intros p' Hin _; exists p']; auto.
  - destruct IH as [IHu IHp]. pose proof (evolves_sequences db db1 He) as [Hsu Hsp].
    split.
    + intros u2 Hin Hlt.
      destruct (step_user_rows db1 db2 Hs u2 Hin) as [E|[u1 [Hin1 [Hi [Hn Hpw]]]]];
        [lia|].
      destruct (IHu u1 Hin1) as [u [Hu [Hi0 [Hn0 Hpw0]]]]; [lia|].
      exists u. repeat split; congruence.
    + intros p2 Hin Hlt.
      destruct (step_post_rows db1 db2 Hs p2 Hin) as [E|[p1 [Hin1 [Hi [Ht Ho]]]]];
        [lia|].
      destruct (IHp p1 Hin1) as [p [Hp [Hi0 [Ht0 Ho0]]]]; [lia|].
      exists p. repeat split; congruence.
Qed.

(** X5. No sequence of calls changes the username or the password of a
    user, or the title or the owner of a post: a row found later under the
    same identifier still has them. *)
Theorem written_once_fields db db' :
  reachable db -> evolves db db' ->
  (forall u u', In u (users db) -> In u' (users db') -> User.id u' = User.id u ->
     User.username u' = User.username u /\ User.password u' = User.password u)
  /\ (forall p p', In p (posts db) -> In p' (posts db') -> Post.id p' = Post.id p ->
        Post.title p' = Post.title p /\ Post.user_id p' = Post.user_id p).
Proof.
  intros Hr He. pose proof (reachable_wf db Hr) as Hwf.
  destruct (evolves_old_rows db db' He) as [Holdu Holdp].
  destruct Hwf as [Hui Hus Hpi Hps _]. rewrite Forall_forall in Hus, Hps. split.
  - intros u u' Hu Hu' Hid.
    destruct (Holdu u' Hu') as [u0 [Hu0 [Hi0 [Hn0 Hpw0]]]].
    { rewrite Hid. now apply Hus. }
    assert (u0 = u).
    { apply (same_key_same_row User.id (users db)); try assumption.
      - now apply insertion_order_NoDup.
      - congruence. }
    subst u0. split; congruence.
  - intros p p' Hp Hp' Hid.
    destruct (Holdp p' Hp') as [p0 [Hp0 [Hi0 [Ht0 Ho0]]]].
    { rewrite Hid. now apply Hps. }
    assert (p0 = p).
    { apply (same_key_same_row Post.id (posts db)); try assumption.
      - now apply insertion_order_NoDup.
      - congruence. }
    subst p0. split; congruence.
Qed.

Lemma written_once_fields_witness :
  reachable db_alice_post
  /\ evolves db_alice_post db_first_post_updated
  /\ forall p', In p' (posts db_first_post_updated) -> Post.id p' = 1 ->
       Post.title p' = "T" /\ Post.user_id p' = 1.
Proof.
  assert (Hr : reachable db_alice_post).
  { apply reachable_create_post, reachable_create_user, reachable_empty. }
  assert (He : evolves db_alice_post db_first_post_updated).
  { eapply evolves_step; [|apply step_update_post_content].
    eapply evolves_step; [apply evolves_refl | apply step_create_post]. }
  split; [exact Hr|]. split; [exact He|].
  intros p' Hin Hid.
  apply (proj2 (written_once_fields db_alice_post db_first_post_updated Hr He)
           (Post.mk 1 "T" "C" 1) p'); [left; reflexivity | exact Hin | exact Hid].
Defined.

(** ** Deleting *)

Lemma find_filter_out {A} (c : A -> bool) (l : list A) :
  find c (filter (fun r => negb (c r)) l) = None.
Proof.
  induction l as [|a l IH]; simpl; [reflexivity|].
  destruct (c a) eqn:E; simpl; [exact IH | now rewrite E].
Qed.

Lemma delete_post_found db post_id p :
  find (post_has_id post_id) (posts db) = Some p ->
  delete_post post_id db
  = (inr {| message := "Post deleted" |},
     mkStore (users db)
             (filter (fun r => negb (post_has_id post_id r)) (posts db))
             (users_id_seq db) (posts_id_seq db)).
Proof.
  intros Hf. unfold_db. rewrite Hf.
  apply find_some in Hf. destruct Hf as [_ Hid]. apply Z.eqb_eq in Hid.
  now rewrite Hid.
Qed.

Lemma delete_user_found db user_id u :
  find (user_has_id user_id) (users db) = Some u ->
  delete_user user_id db
  = (inr {| message := "User deleted" |},
     mkStore (filter (fun r => negb (user_has_id user_id r)) (users db))
             (filter (fun p => negb (Post.user_id p =? user_id)) (posts db))
             (users_id_seq db) (posts_id_seq db)).
Proof.
  intros Hf. unfold_db. rewrite Hf.
  apply find_some in Hf. destruct Hf as [_ Hid]. apply Z.eqb_eq in Hid.
  now rewrite Hid.
Qed.

Lemma filter_other_key {A} (key : A -> Z) (l : list A) (a : A) :
  NoDup (map key l) -> In a l ->
  forall b, In b (filter (fun r => negb (key r =? key a)) l) <-> In b l /\ b <> a.
Proof.
  intros Hnd Ha b. rewrite filter_In, negb_true_iff, Z.eqb_neq. split.
  - intros [Hb Hne]. split; [assumption|]. intros ->. now apply Hne.
  - intros [Hb Hne]. split; [assumption|]. intros E. apply Hne.
    now apply (same_key_same_row key l).
Qed.

(** X6. [delete_post] on an identifier that no post has raises the 404 and
    leaves the database as it was.  On the identifier of a stored post [p],
    in a reachable state, it removes [p] and nothing else: [users] and all
    other posts stay, and afterwards [get_post] and a second [delete_post]
    on the identifier raise the 404. *)
Theorem delete_post_removes_one db post_id :
  ((forall p, In p (posts db) -> Post.id p <> post_id) ->
   delete_post post_id db = (inl (HTTPException 404 "Post not found"), db))
  /\ (reachable db ->
      forall p, In p (posts db) -> Post.id p = post_id ->
      exists db',
        delete_post post_id db = (inr {| message := "Post deleted" |}, db')
        /\ users db' = users db
        /\ (forall q, In q (posts db') <-> In q (posts db) /\ q <> p)
        /\ get_post post_id db' = (inl (HTTPException 404 "Post not found"), db')
        /\ delete_post post_id db'
           = (inl (HTTPException 404 "Post not found"), db')).
Proof.
  split.
  - intros Hno. apply (find_none_ids Post.id) in Hno.
    unfold_db. unfold post_has_id. now rewrite Hno.
  - intros Hr p Hp Hid. pose proof (reachable_wf db Hr) as Hwf.
    assert (Hnd : NoDup (map Post.id (posts db)))
      by apply insertion_order_NoDup, Hwf.
    assert (Hf : find (post_has_id post_id) (posts db) = Some p).
    { subst post_id. now apply (find_by_key Post.id). }
    eexists. split; [apply (delete_post_found db post_id p Hf)|].
    split; [reflexivity|]. split; [|split].
    + intros q. simpl. subst post_id. now apply (filter_other_key Post.id).
    + unfold_db. simpl. now rewrite find_filter_out.
    + unfold_db. simpl. now rewrite find_filter_out.
Qed.

Lemma delete_post_removes_one_witness :
  (delete_post 7 db_alice_post
   = (inl (HTTPException 404 "Post not found"), db_alice_post))
  /\ reachable db_alice_post
  /\ exists db',
       delete_post 1 db_alice_post = (inr {| message := "Post deleted" |}, db')
       /\ users db' = users db_alice_post
       /\ (forall q, In q (posts db') <->
                     In q (posts db_alice_post) /\ q <> Post.mk 1 "T" "C" 1)
       /\ get_post 1 db' = (inl (HTTPException 404 "Post not found"), db')
       /\ delete_post 1 db' = (inl (HTTPException 404 "Post not found"), db').
Proof.
  assert (Hr : reachable db_alice_post).
  { apply reachable_create_post, reachable_create_user, reachable_empty. }
  split; [|split; [exact Hr|]].
  - apply (proj1 (delete_post_removes_one db_alice_post 7)).
    intros p [<-|[]]. discriminate.
  - apply (proj2 (delete_post_removes_one db_alice_post 1) Hr (Post.mk 1 "T" "C" 1)).
    + left; reflexivity.
    + reflexivity.
Defined.

(** X7. [delete_user] on an identifier that no user has raises the 404 and
    leaves the database as it was.  On the identifier of a stored user [u],
    in a reachable state, it removes [u] and the posts of [u] and nothing
    else: the other users and the posts of other users stay.  Afterwards
    [get_user] and a second [delete_user] on the identifier raise the 404,
    [get_post] on each deleted post raises the 404, and no answer of
    [get_users] lists the user. *)
Theorem delete_user_removes_user_and_posts db user_id :
  ((forall u, In u (users db) -> User.id u <> user_id) ->
   delete_user user_id db = (inl (HTTPException 404 "User not found"), db))
  /\ (reachable db ->
      forall u, In u (users db) -> User.id u = user_id ->
      exists db',
        delete_user user_id db = (inr {| message := "User deleted" |}, db')
        /\ (forall v, In v (users db') <-> In v (users db) /\ v <> u)
        /\ (forall q, In q (posts db') <->
                      In q (posts db) /\ Post.user_id q <> user_id)
        /\ get_user user_id db' = (inl (HTTPException 404 "User not found"), db')
        /\ delete_user user_id db'
           = (inl (HTTPException 404 "User not found"), db')
        /\ (forall p, In p (posts db) -> Post.user_id p = user_id ->
              get_post (Post.id p) db'
              = (inl (HTTPException 404 "Post not found"), db'))
        /\ (forall out r, get_users db' out -> In r out ->
              UserResponse.id r <> user_id)).
Proof.
  split.
  - intros Hno. apply (find_none_ids User.id) in Hno.
    unfold_db. unfold user_has_id. now rewrite Hno.
  - intros Hr u Hu Hid. pose proof (reachable_wf db Hr) as Hwf.
    assert (Hnd : NoDup (map User.id (users db)))
      by apply insertion_order_NoDup, Hwf.
    assert (Hf : find (user_has_id user_id) (users db) = Some u).
    { subst user_id. now apply (find_by_key User.id). }
    eexists. split; [apply (delete_user_found db user_id u Hf)|].
    split; [|split; [|split; [|split; [|split]]]].
    + intros v. simpl. subst user_id. now apply (filter_other_key User.id).
    + intros q. simpl. now rewrite filter_In, negb_true_iff, Z.eqb_neq.
    + unfold_db. simpl. now rewrite find_filter_out.
    + unfold_db. simpl. now rewrite find_filter_out.
    + intros p Hp Hpu. unfold_db. simpl.
      destruct (find (post_has_id (Post.id p)) _) as [q|] eqn:Hq; [|reflexivity].
      exfalso. apply find_some in Hq. destruct Hq as [Hin Hqid].
      apply Z.eqb_eq in Hqid. apply filter_In in Hin. destruct Hin as [Hin Hne].
      assert (q = p).
      { apply (same_key_same_row Post.id (posts db)); try assumption.
        apply insertion_order_NoDup, Hwf. }
      subst q. rewrite Hpu, Z.eqb_refl in Hne. discriminate.
    + intros out r [rows [Hq ->]] Hin. apply in_map_iff in Hin.
      destruct Hin as [v [<- Hv]]. simpl.
      apply Permutation_sym in Hq. apply (Permutation_in v Hq) in Hv.
      simpl in Hv. apply filter_In in Hv. destruct Hv as [_ Hne].
      apply negb_true_iff in Hne. now apply Z.eqb_neq.
Qed.

Lemma delete_user_removes_user_and_posts_witness :
  (delete_user 7 db_alice_post
   = (inl (HTTPException 404 "User not found"), db_alice_post))
  /\ reachable db_alice_post
  /\ exists db',
       delete_user 1 db_alice_post = (inr {| message := "User deleted" |}, db')
       /\ get_user 1 db' = (inl (HTTPException 404 "User not found"), db')
       /\ get_post 1 db' = (inl (HTTPException 404 "Post not found"), db').
Proof.
  assert (Hr : reachable db_alice_post).
  { apply reachable_create_post, reachable_create_user, reachable_empty. }
  split; [|split; [exact Hr|]].
  - apply (proj1 (delete_user_removes_user_and_posts db_alice_post 7)).
    intros u [<-|[]]. discriminate.
  - destruct (proj2 (delete_user_removes_user_and_posts db_alice_post 1) Hr
                (User.mk 1 "alice" "a@x.com" "pw1"))
      as [db' [Hd [_ [_ [Hg [_ [Hp _]]]]]]].
    + left; reflexivity.
    + reflexivity.
    + exists db'. split; [exact Hd|]. split; [exact Hg|].
      apply (Hp (Post.mk 1 "T" "C" 1)); [left; reflexivity | reflexivity].
Defined.

(** ** Writing, then reading *)

Lemma change_user_email_succeeds db user_id email r db' :
  wf db -> change_user_email user_id email db = (inr r, db') ->
  exists u,
    In u (users db) /\ User.id u = user_id
    /\ r = user_response (User.set_email u email)
    /\ db' = mkStore (map (email_update user_id email) (users db)) (posts db)
                     (users_id_seq db) (posts_id_seq db).
Proof.
  intros Hwf H.
  destruct (find (user_has_id user_id) (users db)) as [u|] eqn:Hf.
  - pose proof (find_some _ _ Hf) as [Hu Hid]. apply Z.eqb_eq in Hid.
    exists u. split; [assumption|]. split; [assumption|].
    destruct (find (fun v => String.eqb (User.email v) email) (users db))
      as [v|] eqn:Hg.
    + apply find_some in Hg. destruct Hg as [Hv He]. apply String.eqb_eq in He.
      rewrite (change_user_email_taken db user_id email u v) in H; auto.
      discriminate.
    + subst user_id. rewrite change_user_email_free in H; [|assumption|assumption|].
      * injection H as <- <-. split; reflexivity.
      * intros v Hv. apply (find_none _ _ Hg) in Hv. now apply String.eqb_neq.
  - rewrite change_user_email_not_found in H; [discriminate|].
    now apply (find_none_ids User.id).
Qed.

(** X8. After a successful [change_user_email] in a reachable state, the
    answer has the given identifier and email and the user's username,
    [get_user] on the identifier gives the same answer, and [get_post] on
    each post of the user shows the user with the new email. *)
Theorem change_user_email_then_read db user_id email r db' :
  reachable db ->
  change_user_email user_id email db = (inr r, db') ->
  UserResponse.id r = user_id
  /\ UserResponse.email r = email
  /\ (forall u, In u (users db) -> User.id u = user_id ->
        UserResponse.username r = User.username u)
  /\ get_user user_id db' = (inr r, db')
  /\ (forall p, In p (posts db) -> Post.user_id p = user_id ->
        get_post (Post.id p) db'
        = (inr (PostResponse.mk (Post.id p) (Post.title p) (Post.content p) r), db')).
Proof.
  intros Hr H. pose proof (reachable_wf db Hr) as Hwf.
  assert (Hwf' : wf db').
  { pose proof (reachable_change_user_email db user_id email Hr) as Hr'.
    rewrite H in Hr'. now apply reachable_wf. }
  destruct (change_user_email_succeeds db user_id email r db' Hwf H)
    as [u [Hu [Hid [-> Hdb]]]].
  assert (Hin' : In (User.set_email u email) (users db')).
  { rewrite Hdb. simpl. apply in_map_iff. exists u. split; [|assumption].
    unfold email_update, user_has_id. now rewrite Hid, Z.eqb_refl. }
  split; [exact Hid|]. split; [reflexivity|]. split; [|split].
  - intros v Hv Hvid. simpl. f_equal.
    apply (same_key_same_row User.id (users db)); try assumption.
    + apply insertion_order_NoDup, Hwf.
    + congruence.
  - rewrite <- Hid.
    exact (get_user_found db' (User.set_email u email) Hwf' Hin').
  - intros p Hp Hpu.
    apply (get_post_found db' p (User.set_email u email) Hwf').
    + rewrite Hdb. exact Hp.
    + exact Hin'.
    + simpl. congruence.
Qed.

Lemma change_user_email_then_read_witness :
  reachable db_alice_post
  /\ (let r := UserResponse.mk 1 "alice" "c@x.com" in
      let db' := snd (change_user_email 1 "c@x.com" db_alice_post) in
      get_user 1 db' = (inr r, db')
      /\ get_post 1 db' = (inr (PostResponse.mk 1 "T" "C" r), db')).
Proof.
  assert (Hr : reachable db_alice_post).
  { apply reachable_create_post, reachable_create_user, reachable_empty. }
  split; [exact Hr|].
  destruct (change_user_email_then_read db_alice_post 1 "c@x.com"
              (UserResponse.mk 1 "alice" "c@x.com")
              (snd (change_user_email 1 "c@x.com" db_alice_post)) Hr eq_refl)
    as [_ [_ [_ [Hg Hp]]]].
  split; [exact Hg|].
  apply (Hp (Post.mk 1 "T" "C" 1)); [left; reflexivity | reflexivity].
Defined.

(** X9. After [update_post_content] has answered, [get_post] on the
    identifier gives the same answer and writes nothing; in a reachable
    state the answer has the given content, and the title and the user of
    the stored post. *)
Theorem update_post_content_then_read db post_id content r db' :
  update_post_content post_id content db = (inr r, db') ->
  get_post post_id db' = (inr r, db')
  /\ (reachable db ->
      forall p, In p (posts db) -> Post.id p = post_id ->
      exists u, In u (users db) /\ User.id u = Post.user_id p
                /\ r = PostResponse.mk post_id (Post.title p) content
                                       (user_response u)).
Proof.
  intros H. split.
  - destruct (find (post_has_id post_id) (posts db)) as [p|] eqn:Hf.
    + rewrite (update_post_content_writes db post_id content p Hf) in H.
      pose proof (post_response_store (Post.set_content p content)
                    (mkStore (users db)
                             (map (content_update post_id content) (posts db))
                             (users_id_seq db) (posts_id_seq db))) as Hs.
      rewrite H in Hs. simpl in Hs. subst db'.
      unfold get_post, first_post, bind. cbn [posts].
      rewrite (find_post_updated db post_id content p Hf). exact H.
    + rewrite (update_post_content_not_found db post_id content Hf) in H.
      discriminate.
  - intros Hr p Hp Hid. pose proof (reachable_wf db Hr) as Hwf.
    destruct (update_post_content_found db post_id content p Hwf Hp Hid)
      as [u [Hu [Huid Hup]]].
    exists u. split; [assumption|]. split; [assumption|].
    rewrite Hup in H. injection H as <- _.
    unfold post_with_owner. simpl. now rewrite Hid.
Qed.

Lemma update_post_content_then_read_witness :
  let r := PostResponse.mk 1 "T" "D" (UserResponse.mk 1 "alice" "a@x.com") in
  let db' := snd (update_post_content 1 "D" db_alice_post) in
  update_post_content 1 "D" db_alice_post = (inr r, db')
  /\ get_post 1 db' = (inr r, db').
Proof.
  split; [reflexivity|].
  apply (proj1 (update_post_content_then_read db_alice_post 1 "D"
                  (PostResponse.mk 1 "T" "D" (UserResponse.mk 1 "alice" "a@x.com"))
                  (snd (update_post_content 1 "D" db_alice_post)) eq_refl)).
Defined.

(** ** Looking up by identifier *)

(** X10. In a reachable state [get_user] raises the 404 exactly when no
    user has the identifier and otherwise answers with that user;
    [get_post] raises the 404 exactly when no post has the identifier and
    otherwise answers with that post and its user.  Neither writes. *)
Theorem lookup_by_identifier db :
  reachable db ->
  (forall user_id,
     fst (get_user user_id db) = inl (HTTPException 404 "User not found")
     <-> (forall u, In u (users db) -> User.id u <> user_id))
  /\ (forall u, In u (users db) ->
        get_user (User.id u) db = (inr (user_response u), db))
  /\ (forall post_id,
        fst (get_post post_id db) = inl (HTTPException 404 "Post not found")
        <-> (forall p, In p (posts db) -> Post.id p <> post_id))
  /\ (forall p, In p (posts db) ->
        exists u, In u (users db) /\ User.id u = Post.user_id p
                  /\ get_post (Post.id p) db = (inr (post_with_owner p u), db)).
Proof.
  intros Hr. pose proof (reachable_wf db Hr) as Hwf.
  split; [|split; [|split]].
  - intros user_id. split.
    + intros H u Hu Hid. subst user_id.
      rewrite (get_user_found db u Hwf Hu) in H. discriminate.
    + intros Hno. apply (find_none_ids User.id) in Hno.
      unfold_db. unfold user_has_id. now rewrite Hno.
  - intros u Hu. now apply get_user_found.
  - intros post_id. split.
    + intros H p Hp Hid. subst post_id.
      destruct (wf_owner_row db p Hwf Hp) as [u [Hu Huid]].
      rewrite (get_post_found db p u Hwf Hp Hu Huid) in H. discriminate.
    + intros Hno. apply (find_none_ids Post.id) in Hno.
      unfold_db. unfold post_has_id. now rewrite Hno.
  - intros p Hp. destruct (wf_owner_row db p Hwf Hp) as [u [Hu Huid]].
    exists u. split; [assumption|]. split; [assumption|].
    now apply get_post_found.
Qed.

Lemma lookup_by_identifier_witness :
  reachable db_alice_post
  /\ get_user 1 db_alice_post
     = (inr (UserResponse.mk 1 "alice" "a@x.com"), db_alice_post)
  /\ fst (get_post 5 db_alice_post) = inl (HTTPException 404 "Post not found").
Proof.
  assert (Hr : reachable db_alice_post).
  { apply reachable_create_post, reachable_create_user, reachable_empty. }
  destruct (lookup_by_identifier db_alice_post Hr) as [_ [Hu [Hp _]]].
  split; [exact Hr|]. split.
  - apply (Hu (User.mk 1 "alice" "a@x.com" "pw1")). left; reflexivity.
  - apply (proj2 (Hp 5)). intros p [<-|[]]. discriminate.
Defined.

(** X11. An identifier that was given out and has no row stays without a
    row: once a user or a post is gone, no later sequence of calls makes
    [get_user] or [get_post] find it again. *)
Theorem deleted_stays_deleted db db' :
  reachable db -> evolves db db' ->
  (forall user_id,
     user_id < users_id_seq db ->
     (forall u, In u (users db) -> User.id u <> user_id) ->
     get_user user_id db' = (inl (HTTPException 404 "User not found"), db'))
  /\ (forall post_id,
        post_id < posts_id_seq db ->
        (forall p, In p (posts db) -> Post.id p <> post_id) ->
        get_post post_id db' = (inl (HTTPException 404 "Post not found"), db')).
Proof.
  intros Hr He. destruct (evolves_old_rows db db' He) as [Hu Hp]. split.
  - intros user_id Hlt Hno.
    assert (Hf : find (user_has_id user_id) (users db') = None).
    { apply (find_none_ids User.id). intros u' Hu' Hid.
      destruct (Hu u' Hu') as [u [Hin [Hi _]]]; [lia|].
      apply (Hno u Hin). congruence. }
    unfold_db. now rewrite Hf.
  - intros post_id Hlt Hno.
    assert (Hf : find (post_has_id post_id) (posts db') = None).
    { apply (find_none_ids Post.id). intros p' Hp' Hid.
      destruct (Hp p' Hp') as [p [Hin [Hi _]]]; [lia|].
      apply (Hno p Hin). congruence. }
    unfold_db. now rewrite Hf.
Qed.

Lemma deleted_stays_deleted_witness :
  let db := snd (delete_user 1 db_alice) in
  let db' := snd (create_user alice db) in
  reachable db /\ evolves db db'
  /\ 1 < users_id_seq db
  /\ get_user 1 db' = (inl (HTTPException 404 "User not found"), db').
Proof.
  intros db db'.
  assert (Hr : reachable db).
  { apply reachable_delete_user, reachable_create_user, reachable_empty. }
  assert (He : evolves db db').
  { eapply evolves_step; [apply evolves_refl | apply step_create_user]. }
  split; [exact Hr|]. split; [exact He|]. split; [reflexivity|].
  apply (proj1 (deleted_stays_deleted db db' Hr He) 1); [reflexivity|].
  intros u [].
Defined.

(** ** Creating, then listing *)

Lemma Forall2_In_l {A B} (R : A -> B -> Prop) l1 l2 a :
  Forall2 R l1 l2 -> In a l1 -> exists b, In b l2 /\ R a b.
Proof.
  induction 1 as [|a' b l1 l2 Hab _ IH]; simpl; [contradiction|].
  intros [->|Hin].
  - exists b; auto.
  - destruct (IH Hin) as [b' [Hb' Hr]]. exists b'; auto.
Qed.

Lemma create_user_succeeds db user r db' :
  wf db -> create_user user db = (inr r, db') ->
  let row := User.mk (users_id_seq db) (UserCreate.username user)
                     (UserCreate.email user) (UserCreate.password user) in
  (forall u, In u (users db) ->
     User.username u <> UserCreate.username user
     /\ User.email u <> UserCreate.email user)
  /\ r = user_response row
  /\ db' = mkStore (users db ++ [row]) (posts db)
                   (users_id_seq db + 1) (posts_id_seq db).
Proof.
  intros Hwf H row.
  assert (Hfree : forall u, In u (users db) ->
                    User.username u <> UserCreate.username user
                    /\ User.email u <> UserCreate.email user).
  { intros u Hu.
    destruct (String.eqb_spec (User.username u) (UserCreate.username user)) as [E|E].
    { rewrite (create_user_taken db user u Hu (or_introl E)) in H. discriminate. }
    destruct (String.eqb_spec (User.email u) (UserCreate.email user)) as [E'|E'].
    { rewrite (create_user_taken db user u Hu (or_intror E')) in H. discriminate. }
    split; assumption. }
  split; [exact Hfree|].
  rewrite (create_user_inserts db user Hwf Hfree) in H.
  injection H as <- <-. split; reflexivity.
Qed.

Lemma create_post_succeeds db post r db' :
  wf db -> create_post post db = (inr r, db') ->
  let row := Post.mk (posts_id_seq db) (PostCreate.title post)
                     (PostCreate.content post) (PostCreate.user_id post) in
  exists u,
    In u (users db) /\ User.id u = PostCreate.user_id post
    /\ r = post_with_owner row u
    /\ db' = mkStore (users db) (posts db ++ [row])
                     (users_id_seq db) (posts_id_seq db + 1).
Proof.
  intros Hwf H row.
  destruct (find (user_has_id (PostCreate.user_id post)) (users db)) as [u|] eqn:Hf.
  - apply find_some in Hf. destruct Hf as [Hu Hid]. apply Z.eqb_eq in Hid.
    exists u. split; [assumption|]. split; [assumption|].
    rewrite (create_post_inserts db post u Hwf Hu Hid) in H.
    injection H as <- <-. split; reflexivity.
  - rewrite create_post_no_user in H; [discriminate|].
    now apply (find_none_ids User.id).
Qed.

(** X12. In a reachable state, the user that [create_user] has just
    answered with is in every answer of [get_users], and the post that
    [create_post] has just answered with is in every answer of
    [get_posts]. *)
Theorem created_rows_are_listed db :
  reachable db ->
  (forall user r db',
     create_user user db = (inr r, db') ->
     forall out, get_users db' out -> In r out)
  /\ (forall post r db',
        create_post post db = (inr r, db') ->
        forall res, get_posts db' res -> exists out, res = inr out /\ In r out).
Proof.
  intros Hr. pose proof (reachable_wf db Hr) as Hwf. split.
  - intros user r db' Hc out [rows [Hq ->]].
    destruct (create_user_succeeds db user r db' Hwf Hc) as [_ [-> ->]].
    apply in_map. apply (Permutation_in _ Hq). simpl.
    apply in_or_app. right; left; reflexivity.
  - intros post r db' Hc res Hg.
    assert (Hwf' : wf db').
    { pose proof (reachable_create_post db post Hr) as Hr'.
      rewrite Hc in Hr'. now apply reachable_wf. }
    destruct (create_post_succeeds db post r db' Hwf Hc) as [u [Hu [Hid [-> Hdb]]]].
    destruct (get_posts_loaded db' res Hwf' Hg) as [rows [out [Hq [-> [Hl _]]]]].
    exists out. split; [reflexivity|].
    set (row := Post.mk (posts_id_seq db) (PostCreate.title post)
                        (PostCreate.content post) (PostCreate.user_id post)).
    assert (Hrow : In row rows).
    { apply (Permutation_in _ Hq). rewrite Hdb. simpl.
      apply in_or_app. right; left; reflexivity. }
    destruct (Forall2_In_l _ _ _ _ Hl Hrow) as [r' [Hr' [u' [Hu' [Hid' ->]]]]].
    assert (u' = u).
    { apply (same_key_same_row User.id (users db)); try assumption.
      - apply insertion_order_NoDup, Hwf.
      - rewrite Hdb in Hu'. exact Hu'.
      - simpl in Hid'. congruence. }
    subst u'. exact Hr'.
Qed.

Lemma created_rows_are_listed_witness :
  reachable db_alice
  /\ forall out, get_users db_alice_bob out ->
       In (UserResponse.mk 2 "bob" "b@x.com") out.
Proof.
  assert (Hr : reachable db_alice) by (apply reachable_create_user, reachable_empty).
  split; [exact Hr|].
  apply (proj1 (created_rows_are_listed db_alice Hr) bob
           (UserResponse.mk 2 "bob" "b@x.com") db_alice_bob).
  reflexivity.
Defined.

(** ** When the two checked handlers refuse *)

(** X13. In a reachable state [create_user] raises the 400 exactly when
    some user already has the given username or the given email (a user
    with both included), and answers otherwise. *)
Theorem create_user_refuses_exactly db user :
  reachable db ->
  (fst (create_user user db)
   = inl (HTTPException 400 "User with this username or email already exists")
   <-> exists u, In u (users db)
                 /\ (User.username u = UserCreate.username user
                     \/ User.email u = UserCreate.email user))
  /\ ((exists r, fst (create_user user db) = inr r)
      <-> forall u, In u (users db) ->
            User.username u <> UserCreate.username user
            /\ User.email u <> UserCreate.email user).
Proof.
  intros Hr. pose proof (reachable_wf db Hr) as Hwf.
  assert (Hdec : (exists u, In u (users db)
                            /\ (User.username u = UserCreate.username user
                                \/ User.email u = UserCreate.email user))
                 \/ (forall u, In u (users db) ->
                       User.username u <> UserCreate.username user
                       /\ User.email u <> UserCreate.email user)).
  { destruct (find (fun u => String.eqb (User.username u) (UserCreate.username user)
                             || String.eqb (User.email u) (UserCreate.email user))
                   (users db)) as [u|] eqn:Hf.
    - left. apply find_some in Hf. destruct Hf as [Hu Hm]. exists u.
      split; [assumption|].
      apply orb_true_iff in Hm. now rewrite !String.eqb_eq in Hm.
    - right. intros u Hu. apply (find_none _ _ Hf) in Hu.
      apply orb_false_elim in Hu. now rewrite !String.eqb_neq in Hu. }
  split; split.
  - intros H. destruct Hdec as [Hex|Hfree]; [exact Hex|].
    rewrite (create_user_inserts db user Hwf Hfree) in H. discriminate.
  - intros [u [Hu Hm]]. now rewrite (create_user_taken db user u Hu Hm).
  - intros [r H] u Hu.
    destruct (create_user user db) as [res db'] eqn:Hc. simpl in H. subst res.
    now apply (create_user_succeeds db user r db' Hwf Hc).
  - intros Hfree. rewrite (create_user_inserts db user Hwf Hfree).
    eexists; reflexivity.
Qed.

Lemma create_user_refuses_exactly_witness :
  reachable db_alice
  /\ fst (create_user alice db_alice)
     = inl (HTTPException 400 "User with this username or email already exists")
  /\ exists r, fst (create_user bob db_alice) = inr r.
Proof.
  assert (Hr : reachable db_alice) by (apply reachable_create_user, reachable_empty).
  split; [exact Hr|]. split.
  - apply (proj2 (proj1 (create_user_refuses_exactly db_alice alice Hr))).
    exists (User.mk 1 "alice" "a@x.com" "pw1").
    split; [left; reflexivity | left; reflexivity].
  - apply (proj2 (proj2 (create_user_refuses_exactly db_alice bob Hr))).
    intros u [<-|[]]. simpl. split; discriminate.
Defined.

(** X14. In a reachable state [change_user_email] has three outcomes, in
    this order: the 404 when no user has the identifier; else the 400 when
    some row has the given email, whichever row it is; else the answer. *)
Theorem change_user_email_outcomes db user_id email :
  reachable db ->
  ((forall u, In u (users db) -> User.id u <> user_id) ->
   change_user_email user_id email db
   = (inl (HTTPException 404 "User not found"), db))
  /\ (forall u v, In u (users db) -> User.id u = user_id ->
        In v (users db) -> User.email v = email ->
        change_user_email user_id email db
        = (inl (HTTPException 400 "Email is already taken"), db))
  /\ (forall u, In u (users db) -> User.id u = user_id ->
        (forall v, In v (users db) -> User.email v <> email) ->
        exists db',
          change_user_email user_id email db
          = (inr (UserResponse.mk user_id (User.username u) email), db')).
Proof.
  intros Hr. pose proof (reachable_wf db Hr) as Hwf. split; [|split].
  - apply change_user_email_not_found.
  - intros u v. apply change_user_email_taken.
  - intros u Hu Hid Hfree. subst user_id.
    rewrite (change_user_email_free db email u Hwf Hu Hfree). eexists; reflexivity.
Qed.

Lemma change_user_email_outcomes_witness :
  reachable db_alice_bob
  /\ change_user_email 9 "c@x.com" db_alice_bob
     = (inl (HTTPException 404 "User not found"), db_alice_bob)
  /\ change_user_email 1 "b@x.com" db_alice_bob
     = (inl (HTTPException 400 "Email is already taken"), db_alice_bob)
  /\ exists db',
       change_user_email 1 "c@x.com" db_alice_bob
       = (inr (UserResponse.mk 1 "alice" "c@x.com"), db').
Proof.
  assert (Hr : reachable db_alice_bob).
  { apply reachable_create_user, reachable_create_user, reachable_empty. }
  split; [exact Hr|]. split; [|split].
  - apply (proj1 (change_user_email_outcomes db_alice_bob 9 "c@x.com" Hr)).
    intros u [<-|[<-|[]]]; discriminate.
  - apply (proj1 (proj2 (change_user_email_outcomes db_alice_bob 1 "b@x.com" Hr))
             (User.mk 1 "alice" "a@x.com" "pw1") (User.mk 2 "bob" "b@x.com" "pw2")).
    + left; reflexivity.
    + reflexivity.
    + right; left; reflexivity.
    + reflexivity.
  - apply (proj2 (proj2 (change_user_email_outcomes db_alice_bob 1 "c@x.com" Hr))
             (User.mk 1 "alice" "a@x.com" "pw1")).
    + left; reflexivity.
    + reflexivity.
    + intros v [<-|[<-|[]]]; discriminate.
Defined.
